(** * Red-black tree (ma_node.py, ma_tree.py, hades_the_god.py)

    A shallow embedding of the Python classes [HouseOfHades], [BasicNode]
    and [RBT].  Python objects live in a store: a node is an index into
    the list of allocated [BasicNode] records, and every method is a
    computation over the store that either returns, or raises one of the
    Python exceptions of the source, leaving behind the store as it was
    when the exception was raised. *)

From Stdlib Require Import ZArith QArith String Ascii Lia.
From stdpp Require Import base list.

Local Close Scope Q_scope.
Local Open Scope string_scope.

(** ** Python values *)

(** Object identity of a [BasicNode]: its index in the store. *)
Abbreviation addr := nat.

(** A Python [float]: not-a-number, an infinity, or a finite number
    (kept exactly, as a rational). *)
Inductive pyfloat :=
| FNan
| FInf (negative : bool)
| FFin (q : Q).

(** The Python objects the methods can be handed: [None], a [bool], an
    [int], a [float], a [str], a [BasicNode] instance, an [RBT] instance
    ([RBT] has no base class), or an instance of [HouseOfHades] that is
    not a [BasicNode] (a direct instance, or one of a subclass written
    by a caller). Instances of the last two kinds are identified by a
    number. *)
Inductive pyval :=
| VNone
| VBool (b : bool)
| VInt (z : Z)
| VFloat (f : pyfloat)
| VStr (s : string)
| VNode (a : addr)
| VTree (t : nat)
| VHades (i : nat).

(** [class Color(Enum)]: BLACK = 0, RED = 1. *)
Inductive Color := BLACK | RED.

Definition Color_eqb (a b : Color) : bool :=
  match a, b with
  | BLACK, BLACK | RED, RED => true
  | _, _ => false
  end.

(** The attributes [BasicNode.__init__] creates ([_children] is set to an
    empty list there and never read or written again). *)
Record BasicNode := mkNode {
  _color : Color;
  _left : option addr;
  _right : option addr;
  _data : pyval;
  _parent : option addr
}.

Definition with_color (c : Color) (n : BasicNode) : BasicNode :=
  mkNode c (_left n) (_right n) (_data n) (_parent n).
Definition with_left (l : option addr) (n : BasicNode) : BasicNode :=
  mkNode (_color n) l (_right n) (_data n) (_parent n).
Definition with_right (r : option addr) (n : BasicNode) : BasicNode :=
  mkNode (_color n) (_left n) r (_data n) (_parent n).
Definition with_data (d : pyval) (n : BasicNode) : BasicNode :=
  mkNode (_color n) (_left n) (_right n) d (_parent n).
Definition with_parent (p : option addr) (n : BasicNode) : BasicNode :=
  mkNode (_color n) (_left n) (_right n) (_data n) p.

(** A reference held in an attribute, as the Python object it is. *)
Definition obj (o : option addr) : pyval :=
  match o with
  | Some a => VNode a
  | None => VNone
  end.

(** ** Comparison of values *)

(** The number a value is in a comparison; [True] is 1 and [False] is
    0, [bool] being a subclass of [int]. *)
Definition as_number (v : pyval) : option pyfloat :=
  match v with
  | VBool b => Some (FFin (inject_Z (if b then 1 else 0)))
  | VInt z => Some (FFin (inject_Z z))
  | VFloat f => Some f
  | _ => None
  end.

(** Numbers compare by their exact value; every comparison with a NaN is
    false, which [None] stands for here. *)
Definition number_cmp (a b : pyfloat) : option comparison :=
  match a, b with
  | FNan, _ | _, FNan => None
  | FInf true, FInf true | FInf false, FInf false => Some Eq
  | FInf true, _ => Some Lt
  | FInf false, _ => Some Gt
  | FFin _, FInf true => Some Gt
  | FFin _, FInf false => Some Lt
  | FFin p, FFin q => Some (Qcompare p q)
  end.

Definition is_cmp (c : comparison) (o : option comparison) : bool :=
  match o, c with
  | Some Eq, Eq | Some Lt, Lt | Some Gt, Gt => true
  | _, _ => false
  end.

(** [a == b]: never raises; numbers by value, strings by content, other
    objects by identity. *)
Definition py_eq (a b : pyval) : bool :=
  match a, b with
  | VNone, VNone => true
  | VStr s, VStr t => String.eqb s t
  | VNode x, VNode y => Nat.eqb x y
  | VTree x, VTree y => Nat.eqb x y
  | VHades x, VHades y => Nat.eqb x y
  | _, _ =>
      match as_number a, as_number b with
      | Some x, Some y => is_cmp Eq (number_cmp x y)
      | _, _ => false
      end
  end.

(** [a < b] and [a > b]: defined between numbers and between strings;
    [None] stands for the TypeError Python raises otherwise. *)
Definition py_order (c : comparison) (a b : pyval) : option bool :=
  match a, b with
  | VStr s, VStr t =>
      Some (match String.compare s t, c with
            | Lt, Lt | Gt, Gt | Eq, Eq => true
            | _, _ => false
            end)
  | _, _ =>
      match as_number a, as_number b with
      | Some x, Some y => Some (is_cmp c (number_cmp x y))
      | _, _ => None
      end
  end.

(** ** The store and the monad of method calls *)

Inductive exn := ValueError | TypeError | AssertionError | AttributeError.

(** How a call ends: it returns, it raises, or the model gives up: the
    recursion budget ran out ([Fuel]), or a reference points outside the
    store ([Wild], which no Python reference can). *)
Inductive outcome (A : Type) :=
| Ok (a : A)
| Raise (e : exn)
| Fuel
| Wild.
Arguments Ok {A} a.
Arguments Raise {A} e.
Arguments Fuel {A}.
Arguments Wild {A}.

(** The store, and the two attributes of the [RBT] instance under study;
    [warned] logs the values passed to [warnings.warn]. *)
Record state := mkState {
  heap : list BasicNode;
  root : option addr;
  _length : Z;
  warned : list pyval
}.

Definition M (A : Type) : Type := state -> outcome A * state.

Definition ret {A} (a : A) : M A := fun s => (Ok a, s).
Definition raise {A} (e : exn) : M A := fun s => (Raise e, s).
Definition out_of_fuel {A} : M A := fun s => (Fuel, s).

Definition bind {A B} (m : M A) (k : A -> M B) : M B :=
  fun s =>
    match m s with
    | (Ok a, s') => k a s'
    | (Raise e, s') => (Raise e, s')
    | (Fuel, s') => (Fuel, s')
    | (Wild, s') => (Wild, s')
    end.

Notation "x <- m ;; k" := (bind m (fun x => k))
  (at level 100, m at next level, k at level 200, right associativity).
Notation "m ;; k" := (bind m (fun _ => k))
  (at level 100, k at level 200, right associativity).

(** [assert b] *)
Definition assert (b : bool) : M unit :=
  if b then ret tt else raise AssertionError.

Definition set_heap (h : list BasicNode) (s : state) : state :=
  mkState h (root s) (_length s) (warned s).
Definition set_root (r : option addr) (s : state) : state :=
  mkState (heap s) r (_length s) (warned s).
Definition set_length (n : Z) (s : state) : state :=
  mkState (heap s) (root s) n (warned s).
Definition add_warning (v : pyval) (s : state) : state :=
  mkState (heap s) (root s) (_length s) (warned s ++ [v]).

(** Reading and updating the object at [a]. *)
Definition load (a : addr) : M BasicNode :=
  fun s => match heap s !! a with
           | Some n => (Ok n, s)
           | None => (Wild, s)
           end.

Definition modify (a : addr) (f : BasicNode -> BasicNode) : M unit :=
  fun s => match heap s !! a with
           | Some n => (Ok tt, set_heap (<[a := f n]> (heap s)) s)
           | None => (Wild, s)
           end.

(** Allocation of a new object: its identity is the next free index. *)
Definition alloc (n : BasicNode) : M addr :=
  fun s => (Ok (List.length (heap s)), set_heap (heap s ++ [n]) s).

(** [o.method(...)] where [o] may be [None]: NoneType has none of the
    methods, so the attribute lookup raises. *)
Definition on {A} (o : option addr) (method : addr -> M A) : M A :=
  match o with
  | Some a => method a
  | None => raise AttributeError
  end.

Definition get_root : M (option addr) := fun s => (Ok (root s), s).
Definition put_root (r : option addr) : M unit := fun s => (Ok tt, set_root r s).

(** [self._length += 1] *)
Definition incr_length : M unit :=
  fun s => (Ok tt, set_length (_length s + 1) s).

(** The limit of CPython on the conversion of an [int] to a decimal
    string ([sys.int_max_str_digits], 4300 by default). *)
Definition int_max_str_digits : Z := 4300.

(** Whether the f-string [f"`{value}` already exists ..."] can be
    built: the conversion of an [int] of more than 4300 digits raises
    ValueError; every other object has a string. *)
Definition formats (v : pyval) : bool :=
  match v with
  | VInt z => (Z.abs z <? 10 ^ int_max_str_digits)%Z
  | _ => true
  end.
Arguments formats : simpl never.

(** [warnings.warn(f"`{value}` already exists in ...", UserWarning)]:
    the message is built first; the warning is then reported, and
    execution goes on. *)
Definition warn (v : pyval) : M unit :=
  fun s => if formats v then (Ok tt, add_warning v s) else (Raise ValueError, s).

(** [a < b] or [a > b] as a step of a method. *)
Definition compare (c : comparison) (a b : pyval) : M bool :=
  match py_order c a b with
  | Some r => ret r
  | None => raise TypeError
  end.

(** [a and b], where [b] is evaluated only when [a] is true. *)
Definition and_then (a b : M bool) : M bool :=
  x <- a ;; if x then b else ret false.

Definition not_ (a : M bool) : M bool := x <- a ;; ret (negb x).

(** ** hades_the_god.py *)

Definition is_None (v : pyval) : bool :=
  match v with VNone => true | _ => false end.

(** [isinstance(v, BasicNode)] *)
Definition isinstance_BasicNode (v : pyval) : bool :=
  match v with VNode _ => true | _ => false end.

(** [isinstance(v, HouseOfHades)]: a [BasicNode], which derives from
    [HouseOfHades], or another instance of it; [class RBT:] has no
    base. *)
Definition isinstance_HouseOfHades (v : pyval) : bool :=
  match v with VNode _ | VHades _ => true | _ => false end.

(** [type(v) in {int, float}]; the type of [True] is [bool]. *)
Definition is_numeric (v : pyval) : bool :=
  match v with VInt _ | VFloat _ => true | _ => false end.

(** [HouseOfHades.adjudging] *)
Definition adjudging (case : pyval) : M unit :=
  if is_None case then raise ValueError
  else if isinstance_HouseOfHades case then raise TypeError
  else ret tt.

(** ** ma_node.py *)

(** Every name an instance of [BasicNode] answers to: the methods and
    class attributes of [BasicNode] and of its base [HouseOfHades], and
    the instance attributes set in [__init__]. *)
Definition BasicNode_attributes : list string :=
  [ "_cls_name"; "adjudging";
    "__init__"; "set_color"; "set_left"; "set_right"; "get_color";
    "get_data"; "get_left"; "get_right"; "get_children"; "get_parent";
    "get_grand_parent"; "get_uncle"; "get_sibling"; "is_left_child";
    "is_right_child"; "__repr__"; "represent_raw"; "represent_color";
    "swap";
    "_color"; "_left"; "_right"; "_data"; "_children"; "_parent" ].

(** The attribute lookup [o.name] that comes first in a call
    [o.name(...)]: AttributeError when [o] is [None] or when the class
    does not define [name]. *)
Definition lookup_method (o : option addr) (name : string) : M unit :=
  match o with
  | None => raise AttributeError
  | Some _ =>
      if existsb (String.eqb name) BasicNode_attributes then ret tt
      else raise AttributeError
  end.

(** [BasicNode.__init__(value, color)]. [color] is a [Color], so the
    test [color not in [Color.RED, Color.BLACK]] cannot fail. *)
Definition BasicNode_init (value : pyval) (color : Color) : M addr :=
  adjudging value ;;
  alloc (mkNode color None None value None).

Definition set_color (self : addr) (new_color : Color) : M unit :=
  modify self (with_color new_color).

(** [set_left] and [set_right]. The tree only passes [None] or a node,
    which is what [option addr] holds; the TypeError for another kind
    of object is not reachable from it. *)
Definition set_left (self : addr) (new_node : option addr) : M unit :=
  modify self (with_left new_node) ;;
  match new_node with
  | Some c => modify c (with_parent (Some self))
  | None => ret tt
  end.

Definition set_right (self : addr) (new_node : option addr) : M unit :=
  modify self (with_right new_node) ;;
  match new_node with
  | Some c => modify c (with_parent (Some self))
  | None => ret tt
  end.

Definition get_color (self : addr) : M Color := n <- load self ;; ret (_color n).
Definition get_data (self : addr) : M pyval := n <- load self ;; ret (_data n).
Definition get_left (self : addr) : M (option addr) := n <- load self ;; ret (_left n).
Definition get_right (self : addr) : M (option addr) := n <- load self ;; ret (_right n).
Definition get_parent (self : addr) : M (option addr) := n <- load self ;; ret (_parent n).

Definition get_grand_parent (self : addr) : M (option addr) :=
  p <- get_parent self ;;
  match p with
  | Some p => get_parent p
  | None => ret None
  end.

(** [self._parent.get_data() > self.get_data()] *)
Definition is_left_child (self : addr) : M bool :=
  p <- get_parent self ;;
  pd <- on p get_data ;;
  d <- get_data self ;;
  compare Gt pd d.

(** [self._parent.get_data() < self.get_data()] *)
Definition is_right_child (self : addr) : M bool :=
  p <- get_parent self ;;
  pd <- on p get_data ;;
  d <- get_data self ;;
  compare Lt pd d.

Definition get_uncle (self : addr) : M (option addr) :=
  parent <- get_parent self ;;
  match parent with
  | None => ret None
  | Some p =>
      grand_parent <- get_parent p ;;
      match grand_parent with
      | None => ret None
      | Some g =>
          l <- is_left_child p ;;
          if l then get_right g else get_left g
      end
  end.

Definition get_sibling (self : addr) : M (option addr) :=
  parent <- get_parent self ;;
  match parent with
  | None => ret None
  | Some p =>
      l <- is_left_child self ;;
      if l then get_right p else get_left p
  end.

(** [BasicNode.swap]: both right-hand sides are read before either
    attribute is assigned. *)
Definition swap (first_node second_node : pyval) : M unit :=
  match first_node, second_node with
  | VNode a, VNode b =>
      d2 <- get_data b ;;
      d1 <- get_data a ;;
      modify a (with_data d2) ;;
      modify b (with_data d1) ;;
      c2 <- get_color b ;;
      c1 <- get_color a ;;
      modify a (with_color c2) ;;
      modify b (with_color c1)
  | _, _ => raise TypeError
  end.

(** ** ma_tree.py *)

(** Inside [RBT] a variable that holds a node or [None] is an
    [option addr]; [assert isinstance(x, self._basic_node)] fails on
    [None], and an assertion that only asks for a node or [None] always
    passes. The recursive methods take a recursion budget. The methods
    that only print ([_print_me], [print_tree]) are left out. *)

Definition is_empty : M bool :=
  r <- get_root ;; ret (match r with None => true | Some _ => false end).

Fixpoint _insert_node (fuel : nat) (start_node inserted_node : option addr)
  : M (option addr) :=
  match fuel with
  | O => out_of_fuel
  | S fuel =>
      match start_node with
      | None =>
          (* assert isinstance(start_node, self._basic_node) *)
          raise AssertionError
      | Some start =>
          (* inserted_node.get_data(), an AttributeError on None *)
          value <- on inserted_node get_data ;;
          d <- get_data start ;;
          if py_eq value d then
            warn value ;;
            ret start_node
          else
            d <- get_data start ;;
            lt <- compare Lt value d ;;
            if lt then
              l <- get_left start ;;
              match l with
              | Some _ => _insert_node fuel l inserted_node
              | None =>
                  set_left start inserted_node ;;
                  incr_length ;;
                  ret inserted_node
              end
            else
              r <- get_right start ;;
              match r with
              | Some _ => _insert_node fuel r inserted_node
              | None =>
                  set_right start inserted_node ;;
                  incr_length ;;
                  ret inserted_node
              end
      end
  end.

Definition _insert_numeric (fuel : nat) (start_node : option addr)
    (value : pyval) : M (option addr) :=
  assert (match start_node with Some _ => true | None => false end) ;;
  assert (is_numeric value) ;;
  inserted_node <- BasicNode_init value RED ;;
  _insert_node fuel start_node (Some inserted_node).

Definition _insert (fuel : nat) (value : pyval) : M (option addr) :=
  assert (is_numeric value || isinstance_BasicNode value) ;;
  match value with
  | VNode node =>
      r <- get_root ;;
      _insert_node fuel r (Some node)
  | _ =>
      r <- get_root ;;
      _insert_numeric fuel r value
  end.

(** [_rotate_left]. The first statement after [middle] is read is the
    call [middle.set_parent(...)]; the statements after it are kept as
    the source has them. *)
Definition _rotate_left (start_node : option addr) : M (option addr) :=
  match start_node with
  | None => raise AssertionError
  | Some x =>
      middle <- get_right x ;;
      lookup_method middle "set_parent" ;;
      ml <- on middle get_left ;;
      set_right x ml ;;
      on middle (fun m => set_left m start_node) ;;
      ret middle
  end.

Definition _rotate_right (start_node : option addr) : M (option addr) :=
  match start_node with
  | None => raise AssertionError
  | Some x =>
      middle <- get_left x ;;
      lookup_method middle "set_parent" ;;
      mr <- on middle get_right ;;
      set_left x mr ;;
      on middle (fun m => set_right m start_node) ;;
      ret middle
  end.

Definition __recolor_case3 (start_node : option addr) : M (option addr) :=
  match start_node with
  | None => raise AssertionError
  | Some n =>
      parent <- get_parent n ;;
      grandparent <- match parent with
                     | Some p => get_parent p
                     | None => ret None
                     end ;;
      ll <- and_then (on parent is_left_child) (is_left_child n) ;;
      if ll then
        on grandparent (fun g => set_color g RED) ;;
        on parent (fun p => set_color p BLACK) ;;
        _rotate_right grandparent
      else
      lr <- and_then (on parent is_left_child) (not_ (is_left_child n)) ;;
      if lr then
        parent <- _rotate_left parent ;;
        on grandparent (fun g => set_left g parent) ;;
        on grandparent (fun g => set_color g RED) ;;
        grandparent <- _rotate_right grandparent ;;
        on grandparent (fun g => set_color g BLACK) ;;
        ret grandparent
      else
      rl <- and_then (not_ (on parent is_left_child)) (is_left_child n) ;;
      if rl then
        parent <- _rotate_right parent ;;
        on grandparent (fun g => set_right g parent) ;;
        on grandparent (fun g => set_color g RED) ;;
        grandparent <- _rotate_left grandparent ;;
        on grandparent (fun g => set_color g BLACK) ;;
        ret grandparent
      else
        on grandparent (fun g => set_color g RED) ;;
        on parent (fun p => set_color p BLACK) ;;
        _rotate_left grandparent
  end.

(** [if uncle and uncle.get_color() == Color.RED] *)
Definition uncle_is_red (uncle : option addr) : M bool :=
  match uncle with
  | Some u => c <- get_color u ;; ret (Color_eqb c RED)
  | None => ret false
  end.

Fixpoint _recolor (fuel : nat) (start_node : option addr) : M (option addr) :=
  match fuel with
  | O => out_of_fuel
  | S fuel =>
      match start_node with
      | None => raise AssertionError
      | Some n =>
          uncle <- get_uncle n ;;
          parent <- get_parent n ;;
          grandparent <- match parent with
                         | Some p => get_parent p
                         | None => ret None
                         end ;;
          match parent, grandparent with
          | None, _ => ret start_node
          | Some _, None => ret parent
          | Some p, Some g =>
              pc <- get_color p ;;
              if Color_eqb pc BLACK then
                (* case I *)
                get_root
              else
                red <- uncle_is_red uncle ;;
                grandparent <-
                  (if red then
                     (* case II *)
                     set_color p BLACK ;;
                     on uncle (fun u => set_color u BLACK) ;;
                     set_color g RED ;;
                     ret grandparent
                   else
                     (* case III *)
                     great_grandparent <- get_parent g ;;
                     grandparent <- __recolor_case3 start_node ;;
                     match great_grandparent with
                     | Some gg =>
                         ggd <- get_data gg ;;
                         gd <- on grandparent get_data ;;
                         gt <- compare Gt ggd gd ;;
                         if gt then set_left gg grandparent
                         else set_right gg grandparent
                     | None => ret tt
                     end ;;
                     ret grandparent) ;;
                _recolor fuel grandparent
          end
      end
  end.

(** [RBT.insert] *)
Definition insert (fuel : nat) (value : pyval) : M unit :=
  if is_None value then raise ValueError
  else
    e <- is_empty ;;
    if e then
      r <- BasicNode_init value RED ;;
      put_root (Some r) ;;
      r <- get_root ;;
      on r (fun r => set_color r BLACK) ;;
      incr_length
    else
      new_node <- _insert fuel value ;;
      r <- _recolor fuel new_node ;;
      put_root r ;;
      r <- get_root ;;
      on r (fun r => set_color r BLACK).

(** [for item in iterable: self.insert(item)] *)
Fixpoint insert_all (fuel : nat) (iterable : list pyval) : M unit :=
  match iterable with
  | [] => ret tt
  | item :: rest => insert fuel item ;; insert_all fuel rest
  end.

(** [RBT.__init__(iterable)], the iterable being [None] or a sequence
    of objects. *)
Definition RBT_init (fuel : nat) (iterable : option (list pyval)) : M unit :=
  put_root None ;;
  (fun s => (Ok tt, set_length 0 s)) ;;
  match iterable with
  | None => ret tt
  | Some items => insert_all fuel items
  end.

(** A store with no object in it, before [RBT()] runs. *)
Definition nothing : state := mkState [] None 0 [].

(** ** Observation of a tree *)

(** The shape below a reference, read through [_left] and [_right] the
    way [_print_me] walks it: colour, left subtree, stored object, right
    subtree. *)
Inductive shape :=
| Leaf
| Node (c : Color) (l : shape) (v : pyval) (r : shape).

Fixpoint shape_of (fuel : nat) (h : list BasicNode) (o : option addr) : shape :=
  match fuel, o with
  | S fuel, Some a =>
      match h !! a with
      | Some n =>
          Node (_color n) (shape_of fuel h (_left n)) (_data n)
               (shape_of fuel h (_right n))
      | None => Leaf
      end
  | _, _ => Leaf
  end.

Definition tree_shape (s : state) : shape :=
  shape_of (S (List.length (heap s))) (heap s) (root s).

Definition ints (l : list Z) : list pyval := map VInt l.

Definition run {A} (m : M A) : outcome A * state := m nothing.

(** [RBT(l)] for a list of ints, in a store with nothing else in it. *)
Definition built (fuel : nat) (l : list Z) : outcome unit * state :=
  run (RBT_init fuel (Some (ints l))).

Definition tree_of (fuel : nat) (l : list Z) : state := snd (built fuel l).

(** ** The red-black invariants, as checks on a shape *)

Definition root_is_black (t : shape) : bool :=
  match t with
  | Leaf => true
  | Node c _ _ _ => Color_eqb c BLACK
  end.

Definition is_red (t : shape) : bool :=
  match t with
  | Node RED _ _ _ => true
  | _ => false
  end.

Fixpoint no_red_red (t : shape) : bool :=
  match t with
  | Leaf => true
  | Node c l _ r =>
      negb (Color_eqb c RED && (is_red l || is_red r))
      && no_red_red l && no_red_red r
  end.

(** The number of BLACK nodes on each path from the top of the shape to
    an empty position, the top included. *)
Fixpoint black_counts (t : shape) : list nat :=
  match t with
  | Leaf => [0]
  | Node c l _ r =>
      map (fun k => match c with BLACK => S k | RED => k end)
          (black_counts l ++ black_counts r)
  end.

Definition all_equal (l : list nat) : bool :=
  match l with
  | [] => true
  | k :: rest => forallb (Nat.eqb k) rest
  end.

Definition uniform_black_count (t : shape) : bool :=
  all_equal (black_counts t).

Fixpoint values (t : shape) : list pyval :=
  match t with
  | Leaf => []
  | Node _ l v r => values l ++ v :: values r
  end.

Definition lt_value (a b : pyval) : bool :=
  match py_order Lt a b with
  | Some true => true
  | _ => false
  end.

Fixpoint is_bst (t : shape) : bool :=
  match t with
  | Leaf => true
  | Node _ l v r =>
      forallb (fun x => lt_value x v) (values l)
      && forallb (fun x => lt_value v x) (values r)
      && is_bst l && is_bst r
  end.

Definition red_black (t : shape) : bool :=
  root_is_black t && no_red_red t && uniform_black_count t && is_bst t.

(** ** States a caller can reach *)

(** From [RBT()], by calls of [insert] (however each one ends), and by
    building nodes to hand to [insert]. *)
Inductive reachable : state -> Prop :=
| reach_new : reachable (snd (run (RBT_init 0 None)))
| reach_insert s fuel value :
    reachable s -> reachable (snd (insert fuel value s))
| reach_node s value color :
    reachable s -> reachable (snd (BasicNode_init value color s)).

(** ** Relations between the state before and after a call *)

Definition links (n : BasicNode) : option addr * option addr * option addr :=
  (_left n, _right n, _parent n).

(** The tree attributes only grow: [root] is kept, [_length] does not
    decrease. *)
Definition grows (s s' : state) : Prop :=
  root s' = root s /\ (_length s <= _length s')%Z.

(** Nothing but colours differs. *)
Definition recoloured (s s' : state) : Prop :=
  root s' = root s /\ _length s' = _length s /\ warned s' = warned s /\
  map (with_color BLACK) (heap s') = map (with_color BLACK) (heap s).

(** What a node may store: neither [None] nor a [HouseOfHades]. *)
Definition storable (v : pyval) : bool :=
  negb (is_None v) && negb (isinstance_HouseOfHades v).

Definition data_checked (s : state) : Prop :=
  Forall (fun n => storable (_data n) = true) (heap s).

Definition keeps_data_checked (s s' : state) : Prop :=
  data_checked s -> data_checked s'.

(** The invariant behind [is_empty]. *)
Definition counted (s : state) : Prop :=
  match root s with
  | None => _length s = 0%Z
  | Some _ => (1 <= _length s)%Z
  end.

(** The node [n] with the stored object and the colour of [m]. *)
Definition exchanged (n m : BasicNode) : BasicNode :=
  mkNode (_color m) (_left n) (_right n) (_data m) (_parent n).

(** The node [new] hangs in the tree: some node has it as a child, and
    its own parent reference points back to that node. *)
Definition attached (new : addr) (s : state) : Prop :=
  exists p np nn,
    heap s !! p = Some np /\ (_left np = Some new \/ _right np = Some new) /\
    heap s !! new = Some nn /\ _parent nn = Some p.

(** The eight-value scenario: 13 BLACK on top, 8 (of colour [c8]) and 17
    BLACK below it, 1 and 11 under 8, 15 and 25 under 17, and two BLACK
    nodes on every path from the top to an empty position. *)
Definition scenario (c8 : Color) (t : shape) : Prop :=
  exists l8 r8 l17 r17,
    t = Node BLACK (Node c8 l8 (VInt 8) r8) (VInt 13)
             (Node BLACK l17 (VInt 17) r17) /\
    In (VInt 1) (values l8 ++ values r8) /\
    In (VInt 11) (values l8 ++ values r8) /\
    In (VInt 15) (values l17 ++ values r17) /\
    In (VInt 25) (values l17 ++ values r17) /\
    Forall (eq 2) (black_counts t).

(** An update of a node that keeps what it stores. *)
Definition same_data (f : BasicNode -> BasicNode) : Prop :=
  forall n, _data (f n) = _data n.

(** ** More of ma_node.py *)

(** [BasicNode.get_children]: the left child, then the right child,
    those that are there. *)
Definition get_children (self : addr) : M (list addr) :=
  n <- load self ;;
  ret (match _left n with Some l => [l] | None => [] end ++
       match _right n with Some r => [r] | None => [] end)%list.

(** ** Plain search trees *)

(** A shape without its colours. *)
Inductive skeleton :=
| Empty
| Fork (l : skeleton) (v : pyval) (r : skeleton).

Fixpoint uncoloured (t : shape) : skeleton :=
  match t with
  | Leaf => Empty
  | Node _ l v r => Fork (uncoloured l) v (uncoloured r)
  end.

Fixpoint size (t : skeleton) : nat :=
  match t with
  | Empty => 0
  | Fork l _ r => S (size l + size r)
  end.

Fixpoint height (t : skeleton) : nat :=
  match t with
  | Empty => 0
  | Fork l _ r => S (Nat.max (height l) (height r))
  end.

Fixpoint stored (t : skeleton) : list pyval :=
  match t with
  | Empty => []
  | Fork l v r => stored l ++ v :: stored r
  end.

(** The descent of [_insert_node], on a skeleton: an equal value or a
    failed comparison leaves the tree as it is, a smaller value goes
    left, any other goes right, and an empty position takes the value. *)
Fixpoint bst_insert (v : pyval) (t : skeleton) : skeleton :=
  match t with
  | Empty => Fork Empty v Empty
  | Fork l x r =>
      if py_eq v x then t
      else match py_order Lt v x with
           | Some true => Fork (bst_insert v l) x r
           | Some false => Fork l x (bst_insert v r)
           | None => t
           end
  end.

(** Strict search order: everything on the left is smaller, everything
    on the right is greater. *)
Fixpoint ordered (t : skeleton) : bool :=
  match t with
  | Empty => true
  | Fork l v r =>
      forallb (fun x => lt_value x v) (stored l)
      && forallb (fun x => lt_value v x) (stored r)
      && ordered l && ordered r
  end.

(** A number other than NaN. *)
Definition orderable (v : pyval) : bool :=
  match v with
  | VInt _ => true
  | VFloat FNan => false
  | VFloat _ => true
  | _ => false
  end.

(** The nodes below a reference form a tree in the store: [rep h par o
    t al] says that [o] leads to the skeleton [t], whose top has the
    parent reference [par], every child pointing back to its parent,
    and that [al] lists the nodes of [t], each once. *)
Inductive rep (h : list BasicNode)
  : option addr -> option addr -> skeleton -> list addr -> Prop :=
| rep_empty par : rep h par None Empty []
| rep_fork par a n l r al ar :
    h !! a = Some n ->
    _parent n = par ->
    rep h (Some a) (_left n) l al ->
    rep h (Some a) (_right n) r ar ->
    NoDup (a :: al ++ ar) ->
    rep h par (Some a) (Fork l (_data n) r) (a :: al ++ ar).

(** The tree of a state is well formed, and [_length] counts its nodes. *)
Definition well_formed (s : state) : Prop :=
  exists t al,
    rep (heap s) None (root s) t al /\ Z.of_nat (List.length al) = _length s.

(** States reached from [RBT()] by inserting objects that are not nodes
    built beforehand, however each insertion ends. *)
Inductive grown : state -> Prop :=
| grown_new : grown (snd (run (RBT_init 0 None)))
| grown_insert s fuel value :
    grown s -> isinstance_BasicNode value = false ->
    grown (snd (insert fuel value s)).

(** The same, inserting only numbers other than NaN. *)
Inductive grown_from_numbers : state -> Prop :=
| numbers_new : grown_from_numbers (snd (run (RBT_init 0 None)))
| numbers_insert s fuel value :
    grown_from_numbers s -> orderable value = true ->
    grown_from_numbers (snd (insert fuel value s)).

(** A node of the tree: the root, or a child of a node of the tree. *)
Inductive in_tree (s : state) : addr -> Prop :=
| in_tree_root r : root s = Some r -> in_tree s r
| in_tree_left p n c :
    in_tree s p -> heap s !! p = Some n -> _left n = Some c -> in_tree s c
| in_tree_right p n c :
    in_tree s p -> heap s !! p = Some n -> _right n = Some c -> in_tree s c.

(** No node is lost and no node changes what it stores. *)
Definition data_kept (s s' : state) : Prop :=
  forall a n, heap s !! a = Some n ->
              exists n', heap s' !! a = Some n' /\ _data n' = _data n.

(** The attributes of the tree and the warnings are as they were. *)
Definition attributes_kept (s s' : state) : Prop :=
  warned s' = warned s /\ root s' = root s /\ _length s' = _length s.

(** Count and warnings are as they were, and nothing but colours (and
    the root attribute) differs. *)
Definition repainted (s s' : state) : Prop :=
  _length s' = _length s /\ warned s' = warned s /\
  map (with_color BLACK) (heap s') = map (with_color BLACK) (heap s).

(** The node [x] has [d] ancestors, the last of which has the parent
    reference [par]. *)
Inductive climbs (h : list BasicNode) (par : option addr) : addr -> nat -> Prop :=
| climbs_top x n : h !! x = Some n -> _parent n = par -> climbs h par x 0
| climbs_step x n p d :
    h !! x = Some n -> _parent n = Some p -> climbs h par p d ->
    climbs h par x (S d).

(** ** Behaviour of computations *)

Definition readonly {A} (m : M A) : Prop := forall s, snd (m s) = s.
Definition never_ok {A} (m : M A) : Prop := forall s a, fst (m s) <> Ok a.
Definition stable (R : state -> state -> Prop) {A} (m : M A) : Prop :=
  forall s, R s (snd (m s)).

(** * Lemmas *)

(** ** The monad *)

Lemma bind_Ok {A B} (m : M A) (k : A -> M B) s b s' :
  bind m k s = (Ok b, s') ->
  exists a s1, m s = (Ok a, s1) /\ k a s1 = (Ok b, s').
Proof.
  unfold bind. destruct (m s) as [[a| | |] s1]; intros H; try discriminate.
  eauto.
Qed.

Lemma bind_step {A B} (m : M A) (k : A -> M B) s a s1 :
  m s = (Ok a, s1) -> bind m k s = k a s1.
Proof. unfold bind. now intros ->. Qed.

Lemma bind_stop {A B} (m : M A) (k : A -> M B) s e s1 :
  m s = (Raise e, s1) -> bind m k s = (Raise e, s1).
Proof. unfold bind. now intros ->. Qed.

Section Readonly.
Context {A B : Type}.

Lemma readonly_ret (a : A) : readonly (ret a).
Proof. now intros s. Qed.

Lemma readonly_raise e : readonly (@raise A e).
Proof. now intros s. Qed.

Lemma readonly_out_of_fuel : readonly (@out_of_fuel A).
Proof. now intros s. Qed.

Lemma readonly_bind (m : M A) (k : A -> M B) :
  readonly m -> (forall a, readonly (k a)) -> readonly (bind m k).
Proof.
  intros Hm Hk s. unfold bind. specialize (Hm s).
  destruct (m s) as [[a| | |] s1]; simpl in *; subst; try reflexivity.
  apply Hk.
Qed.

Lemma readonly_on o (f : addr -> M A) :
  (forall a, readonly (f a)) -> readonly (on o f).
Proof. intros H. destruct o; simpl; [apply H | apply readonly_raise]. Qed.
End Readonly.

Lemma readonly_load a : readonly (load a).
Proof. intros s. unfold load. now destruct (heap s !! a). Qed.

Lemma readonly_get_root : readonly get_root.
Proof. now intros s. Qed.

Lemma readonly_compare c a b : readonly (compare c a b).
Proof. unfold compare. destruct (py_order c a b); [apply readonly_ret | apply readonly_raise]. Qed.

Lemma readonly_assert b : readonly (assert b).
Proof. destruct b; [apply readonly_ret | apply readonly_raise]. Qed.

Lemma readonly_lookup_method o name : readonly (lookup_method o name).
Proof.
  unfold lookup_method. destruct o; [|apply readonly_raise].
  destruct (existsb _ _); [apply readonly_ret | apply readonly_raise].
Qed.

Create HintDb ro discriminated.
#[local] Hint Resolve readonly_ret readonly_raise readonly_out_of_fuel
  readonly_load readonly_get_root readonly_compare readonly_assert
  readonly_lookup_method : ro.

(** Breaks a computation along its [bind]s and its case distinctions. *)
Ltac step_through base rule_bind rule_on :=
  repeat first
    [ solve [base]
    | assumption
    | progress intros
    | rule_bind
    | rule_on
    | match goal with
      | |- _ _ (match ?x with _ => _ end) => destruct x
      | |- _ (match ?x with _ => _ end) => destruct x
      end ].

Ltac read_only :=
  step_through ltac:(auto with ro) ltac:(apply readonly_bind) ltac:(apply readonly_on).

Lemma readonly_get_color a : readonly (get_color a).
Proof. unfold get_color. read_only. Qed.
Lemma readonly_get_data a : readonly (get_data a).
Proof. unfold get_data. read_only. Qed.
Lemma readonly_get_left a : readonly (get_left a).
Proof. unfold get_left. read_only. Qed.
Lemma readonly_get_right a : readonly (get_right a).
Proof. unfold get_right. read_only. Qed.
Lemma readonly_get_parent a : readonly (get_parent a).
Proof. unfold get_parent. read_only. Qed.
#[local] Hint Resolve readonly_get_color readonly_get_data readonly_get_left
  readonly_get_right readonly_get_parent : ro.

Lemma readonly_is_left_child a : readonly (is_left_child a).
Proof. unfold is_left_child. read_only. Qed.
#[local] Hint Resolve readonly_is_left_child : ro.

Lemma readonly_get_uncle a : readonly (get_uncle a).
Proof. unfold get_uncle. read_only. Qed.

Lemma readonly_uncle_is_red u : readonly (uncle_is_red u).
Proof. unfold uncle_is_red. read_only. Qed.

Lemma readonly_is_empty : readonly is_empty.
Proof. unfold is_empty. read_only. Qed.

Lemma readonly_and_then a b : readonly a -> readonly b -> readonly (and_then a b).
Proof. intros Ha Hb. unfold and_then. read_only. Qed.

Lemma readonly_not_ a : readonly a -> readonly (not_ a).
Proof. intros Ha. unfold not_. read_only. Qed.

Lemma readonly_adjudging v : readonly (adjudging v).
Proof. unfold adjudging. read_only. Qed.

#[local] Hint Resolve readonly_get_uncle readonly_uncle_is_red readonly_is_empty
  readonly_adjudging : ro.
#[local] Hint Resolve readonly_and_then readonly_not_ readonly_on : ro.

Lemma readonly_state {A} (m : M A) s o s' : readonly m -> m s = (o, s') -> s' = s.
Proof. intros H E. specialize (H s). rewrite E in H. exact H. Qed.

(** ** Computations that cannot return *)

Lemma never_ok_raise {A} e : never_ok (@raise A e).
Proof. intros s a. discriminate. Qed.

Lemma never_ok_bind_l {A B} (m : M A) (k : A -> M B) :
  never_ok m -> never_ok (bind m k).
Proof.
  intros H s b. unfold bind. specialize (H s).
  destruct (m s) as [[a| | |] s1]; simpl in *; try discriminate.
  now destruct (H a).
Qed.

Lemma never_ok_bind_r {A B} (m : M A) (k : A -> M B) :
  (forall a, never_ok (k a)) -> never_ok (bind m k).
Proof.
  intros H s b. unfold bind.
  destruct (m s) as [[a| | |] s1]; simpl; try discriminate.
  apply H.
Qed.

Lemma never_ok_on {A} o (f : addr -> M A) :
  (forall a, never_ok (f a)) -> never_ok (on o f).
Proof. intros H. destruct o; simpl; [apply H | apply never_ok_raise]. Qed.

(** [BasicNode] has no [set_parent]: the lookup fails on every object. *)
Lemma set_parent_undefined :
  existsb (String.eqb "set_parent") BasicNode_attributes = false.
Proof. reflexivity. Qed.

Lemma never_ok_set_parent o : never_ok (lookup_method o "set_parent").
Proof.
  unfold lookup_method. destruct o; [|apply never_ok_raise].
  rewrite set_parent_undefined. apply never_ok_raise.
Qed.

Lemma never_ok_rotate_left x : never_ok (_rotate_left x).
Proof.
  destruct x; simpl; [|apply never_ok_raise].
  apply never_ok_bind_r; intros middle.
  apply never_ok_bind_l, never_ok_set_parent.
Qed.

Lemma never_ok_rotate_right x : never_ok (_rotate_right x).
Proof.
  destruct x; simpl; [|apply never_ok_raise].
  apply never_ok_bind_r; intros middle.
  apply never_ok_bind_l, never_ok_set_parent.
Qed.

Lemma never_ok_recolor_case3 x : never_ok (__recolor_case3 x).
Proof.
  destruct x; simpl; [|apply never_ok_raise].
  repeat first
    [ apply never_ok_rotate_left | apply never_ok_rotate_right
    | apply never_ok_bind_l; first [apply never_ok_rotate_left | apply never_ok_rotate_right]
    | apply never_ok_bind_r; intros ?
    | match goal with |- never_ok (if ?b then _ else _) => destruct b end ].
Qed.

(** ** Frame conditions *)

Section Stable.
Context (R : state -> state -> Prop) `{!PreOrder R}.
Context {A B : Type}.

Lemma stable_readonly (m : M A) : readonly m -> stable R m.
Proof. intros H s. rewrite H. reflexivity. Qed.

Lemma stable_bind (m : M A) (k : A -> M B) :
  stable R m -> (forall a, stable R (k a)) -> stable R (bind m k).
Proof.
  intros Hm Hk s. unfold bind. specialize (Hm s).
  destruct (m s) as [[a| | |] s1]; simpl in *; try assumption.
  etransitivity; [exact Hm | apply Hk].
Qed.

Lemma stable_bind_never (m : M A) (k : A -> M B) :
  never_ok m -> stable R m -> stable R (bind m k).
Proof.
  intros Hn Hm s. unfold bind. specialize (Hm s). specialize (Hn s).
  destruct (m s) as [[a| | |] s1]; simpl in *; try assumption.
  now destruct (Hn a).
Qed.

Lemma stable_on o (f : addr -> M A) :
  (forall a, stable R (f a)) -> stable R (on o f).
Proof.
  intros H. destruct o; simpl; [apply H|].
  apply stable_readonly, readonly_raise.
Qed.
End Stable.

Lemma stable_result R {A} (m : M A) s o s' : stable R m -> m s = (o, s') -> R s s'.
Proof. intros H E. specialize (H s). now rewrite E in H. Qed.

#[local] Instance grows_preorder : PreOrder grows.
Proof.
  split.
  - intros s. split; [reflexivity | lia].
  - intros s1 s2 s3 [H1 H2] [H3 H4]. split; [congruence | lia].
Qed.

#[local] Instance recoloured_preorder : PreOrder recoloured.
Proof.
  split.
  - intros s. repeat split.
  - intros s1 s2 s3 (?&?&?&?) (?&?&?&?). repeat split; congruence.
Qed.

#[local] Instance keeps_data_checked_preorder : PreOrder keeps_data_checked.
Proof.
  split.
  - intros s H. exact H.
  - intros s1 s2 s3 H1 H2 H. auto.
Qed.

Create HintDb frame discriminated.

Create HintDb never discriminated.
#[local] Hint Resolve never_ok_set_parent never_ok_rotate_left
  never_ok_rotate_right never_ok_recolor_case3 : never.

Ltac side :=
  lazymatch goal with
  | |- PreOrder _ => typeclasses eauto
  | |- never_ok _ => solve [auto with never]
  | |- _ => idtac
  end.

(** Proves a frame condition along the code. A computation that cannot
    return ends the sequence it is in, so what follows it need not be
    looked at. *)
Ltac frame :=
  step_through
    ltac:(first [ solve [auto with frame]
                | solve [apply stable_readonly; side; auto with ro] ])
    ltac:(first [ apply stable_bind_never; side
                | apply stable_bind; side ])
    ltac:(apply stable_on; side).

Lemma modify_result a f s o s' :
  modify a f s = (o, s') ->
  (exists n, heap s !! a = Some n /\ o = Ok tt /\
             s' = set_heap (<[a := f n]> (heap s)) s)
  \/ (heap s !! a = None /\ o = Wild /\ s' = s).
Proof.
  unfold modify. destruct (heap s !! a) as [n|]; intros [= <- <-]; eauto.
Qed.

Lemma grows_modify a f : stable grows (modify a f).
Proof.
  intros s. destruct (modify a f s) as [o s'] eqn:E.
  apply modify_result in E as [(n & _ & _ & ->)|(_ & _ & ->)]; simpl;
    split; simpl; auto; lia.
Qed.

Lemma grows_alloc n : stable grows (alloc n).
Proof. intros s. split; simpl; [reflexivity | lia]. Qed.

Lemma grows_incr_length : stable grows incr_length.
Proof. intros s. split; simpl; [reflexivity | lia]. Qed.

Lemma warn_result v s :
  (formats v = true /\ warn v s = (Ok tt, add_warning v s))
  \/ (formats v = false /\ warn v s = (Raise ValueError, s)).
Proof. unfold warn. destruct (formats v); auto. Qed.

Lemma grows_warn v : stable grows (warn v).
Proof.
  intros s. destruct (warn_result v s) as [(_ & ->)|(_ & ->)];
    split; simpl; [reflexivity | lia | reflexivity | lia].
Qed.

#[local] Hint Resolve grows_modify grows_alloc grows_incr_length grows_warn : frame.

Lemma recoloured_set_color a c : stable recoloured (set_color a c).
Proof.
  intros s. unfold set_color. destruct (modify a _ s) as [o s'] eqn:E.
  apply modify_result in E as [(n & Hn & _ & ->)|(_ & _ & ->)]; simpl;
    [|reflexivity].
  repeat split; simpl.
  change (map (with_color BLACK)) with (fmap (M:=list) (with_color BLACK)).
  rewrite list_fmap_insert. apply list_insert_id.
  rewrite list_lookup_fmap, Hn. reflexivity.
Qed.

#[local] Hint Resolve recoloured_set_color : frame.

Lemma checked_modify a f : same_data f -> stable keeps_data_checked (modify a f).
Proof.
  intros Hf s H. destruct (modify a f s) as [o s'] eqn:E. simpl.
  apply modify_result in E as [(n & Hn & _ & ->)|(_ & _ & ->)]; [|exact H].
  unfold data_checked in *. simpl. apply Forall_insert; [exact H|].
  rewrite Hf. exact (Forall_lookup_1 _ _ _ _ H Hn).
Qed.

Lemma checked_set_color a c : stable keeps_data_checked (set_color a c).
Proof. apply checked_modify. now intros n. Qed.

Lemma checked_with_left a l : stable keeps_data_checked (modify a (with_left l)).
Proof. apply checked_modify. now intros n. Qed.

Lemma checked_with_right a r : stable keeps_data_checked (modify a (with_right r)).
Proof. apply checked_modify. now intros n. Qed.

Lemma checked_with_parent a p : stable keeps_data_checked (modify a (with_parent p)).
Proof. apply checked_modify. now intros n. Qed.

Lemma checked_incr_length : stable keeps_data_checked incr_length.
Proof. intros s H. exact H. Qed.

Lemma checked_warn v : stable keeps_data_checked (warn v).
Proof. intros s H. destruct (warn_result v s) as [(_ & ->)|(_ & ->)]; exact H. Qed.

Lemma checked_put_root r : stable keeps_data_checked (put_root r).
Proof. intros s H. exact H. Qed.

Lemma checked_BasicNode_init v c : stable keeps_data_checked (BasicNode_init v c).
Proof.
  intros s H. unfold BasicNode_init, adjudging, bind.
  destruct v; simpl; try exact H;
    apply Forall_app_2; try exact H; repeat constructor.
Qed.

#[local] Hint Resolve checked_set_color checked_with_left checked_with_right
  checked_with_parent checked_incr_length checked_warn checked_put_root
  checked_BasicNode_init : frame.

Lemma grows_BasicNode_init v c : stable grows (BasicNode_init v c).
Proof. unfold BasicNode_init. frame. Qed.
#[local] Hint Resolve grows_BasicNode_init : frame.

Section Derived.
Context (R : state -> state -> Prop) `{!PreOrder R}.
Hypothesis R_with_left : forall a l, stable R (modify a (with_left l)).
Hypothesis R_with_right : forall a r, stable R (modify a (with_right r)).
Hypothesis R_with_parent : forall a p, stable R (modify a (with_parent p)).
Hypothesis R_set_color : forall a c, stable R (set_color a c).
Hypothesis R_incr_length : stable R incr_length.
Hypothesis R_warn : forall v, stable R (warn v).
Hypothesis R_init : forall v c, stable R (BasicNode_init v c).

Lemma stable_set_left a l : stable R (set_left a l).
Proof. unfold set_left. frame. Qed.

Lemma stable_set_right a r : stable R (set_right a r).
Proof. unfold set_right. frame. Qed.

Hint Resolve stable_set_left stable_set_right : frame.

Lemma stable_insert_node fuel a b : stable R (_insert_node fuel a b).
Proof. revert a. induction fuel as [|fuel IH]; intros a; simpl; frame. Qed.

Hint Resolve stable_insert_node : frame.

Lemma stable_insert_numeric fuel a v : stable R (_insert_numeric fuel a v).
Proof. unfold _insert_numeric. frame. Qed.

Hint Resolve stable_insert_numeric : frame.

Lemma stable_insert_ fuel v : stable R (_insert fuel v).
Proof. unfold _insert. frame. Qed.

Lemma stable_rotate_left x : stable R (_rotate_left x).
Proof. unfold _rotate_left. frame. Qed.

Lemma stable_rotate_right x : stable R (_rotate_right x).
Proof. unfold _rotate_right. frame. Qed.

Hint Resolve stable_rotate_left stable_rotate_right : frame.

Lemma stable_recolor_case3 x : stable R (__recolor_case3 x).
Proof. unfold __recolor_case3. frame. Qed.

Hint Resolve stable_recolor_case3 : frame.

Lemma stable_recolor fuel x : stable R (_recolor fuel x).
Proof. revert x. induction fuel as [|fuel IH]; intros x; simpl; frame. Qed.
End Derived.

Lemma recoloured_rotate_left x : stable recoloured (_rotate_left x).
Proof. unfold _rotate_left. frame. Qed.

Lemma recoloured_rotate_right x : stable recoloured (_rotate_right x).
Proof. unfold _rotate_right. frame. Qed.

#[local] Hint Resolve recoloured_rotate_left recoloured_rotate_right : frame.

Lemma recoloured_recolor_case3 x : stable recoloured (__recolor_case3 x).
Proof. unfold __recolor_case3. frame. Qed.

#[local] Hint Resolve recoloured_recolor_case3 : frame.

(** The recolouring procedure changes colours and nothing else, however
    it ends. *)
Lemma recoloured_recolor fuel x : stable recoloured (_recolor fuel x).
Proof. revert x. induction fuel as [|fuel IH]; intros x; simpl; frame. Qed.

(** ** Reading and writing the store *)

Lemma load_Some s a n : heap s !! a = Some n -> load a s = (Ok n, s).
Proof. unfold load. now intros ->. Qed.

Lemma modify_Some s a n f :
  heap s !! a = Some n ->
  modify a f s = (Ok tt, set_heap (<[a := f n]> (heap s)) s).
Proof. unfold modify. now intros ->. Qed.

Lemma get_data_Some s a n : heap s !! a = Some n -> get_data a s = (Ok (_data n), s).
Proof. intros H. unfold get_data. now rewrite (bind_step _ _ _ _ _ (load_Some _ _ _ H)). Qed.

Lemma get_color_Some s a n : heap s !! a = Some n -> get_color a s = (Ok (_color n), s).
Proof. intros H. unfold get_color. now rewrite (bind_step _ _ _ _ _ (load_Some _ _ _ H)). Qed.

Lemma swap_result s a b na nb :
  heap s !! a = Some na -> heap s !! b = Some nb ->
  swap (VNode a) (VNode b) s =
    (Ok tt, set_heap (<[b := exchanged nb na]> (<[a := exchanged na nb]> (heap s))) s).
Proof.
  intros Ha Hb.
  pose proof (lookup_lt_Some _ _ _ Ha) as La.
  pose proof (lookup_lt_Some _ _ _ Hb) as Lb.
  unfold swap.
  rewrite (bind_step _ _ _ _ _ (get_data_Some _ _ _ Hb)).
  rewrite (bind_step _ _ _ _ _ (get_data_Some _ _ _ Ha)).
  rewrite (bind_step _ _ _ _ _ (modify_Some _ _ _ _ Ha)).
  destruct (decide (a = b)) as [->|Hne].
  - assert (na = nb) by congruence. subst nb.
    erewrite bind_step by (apply modify_Some; simpl; now apply list_lookup_insert_eq).
    simpl. rewrite list_insert_insert_eq.
    erewrite bind_step by (apply get_color_Some; simpl; now apply list_lookup_insert_eq).
    erewrite bind_step by (apply get_color_Some; simpl; now apply list_lookup_insert_eq).
    erewrite bind_step by (apply modify_Some; simpl; now apply list_lookup_insert_eq).
    simpl. rewrite list_insert_insert_eq.
    erewrite modify_Some by (simpl; now apply list_lookup_insert_eq).
    simpl. rewrite !list_insert_insert_eq.
    destruct s, na; reflexivity.
  - erewrite bind_step by
      (apply modify_Some; simpl; rewrite list_lookup_insert_ne by congruence; eassumption).
    simpl.
    erewrite bind_step by
      (apply get_color_Some; simpl; apply list_lookup_insert_eq;
       now rewrite length_insert).
    erewrite bind_step by
      (apply get_color_Some; simpl;
       rewrite list_lookup_insert_ne by congruence; now apply list_lookup_insert_eq).
    erewrite bind_step by
      (apply modify_Some; simpl;
       rewrite list_lookup_insert_ne by congruence; now apply list_lookup_insert_eq).
    simpl.
    erewrite modify_Some by
      (simpl; rewrite list_lookup_insert_ne by congruence;
       apply list_lookup_insert_eq; now rewrite length_insert).
    simpl.
    rewrite (list_insert_insert_ne _ a b) by congruence.
    rewrite list_insert_insert_eq.
    rewrite (list_insert_insert_ne _ b a) by congruence.
    rewrite list_insert_insert_eq.
    rewrite (list_insert_insert_ne _ b a) by congruence.
    rewrite list_insert_insert_eq.
    rewrite (list_insert_insert_ne _ a b) by congruence.
    destruct s, na, nb; reflexivity.
Qed.

(** ** The tree attributes under insertion *)

Lemma grows_set_color a c : stable grows (set_color a c).
Proof. apply grows_modify. Qed.
#[local] Hint Resolve grows_set_color : frame.

Lemma grows_insert_ fuel v : stable grows (_insert fuel v).
Proof. apply stable_insert_; try typeclasses eauto; auto with frame. Qed.

Lemma grows_recolor_case3 x : stable grows (__recolor_case3 x).
Proof. apply stable_recolor_case3; try typeclasses eauto; auto with frame. Qed.

Lemma grows_recolor fuel x : stable grows (_recolor fuel x).
Proof. apply stable_recolor; try typeclasses eauto; auto with frame. Qed.

Lemma grows_set_left a l : stable grows (set_left a l).
Proof. apply stable_set_left; try typeclasses eauto; auto with frame. Qed.

Lemma grows_set_right a l : stable grows (set_right a l).
Proof. apply stable_set_right; try typeclasses eauto; auto with frame. Qed.

#[local] Hint Resolve grows_insert_ grows_recolor_case3 grows_recolor
  grows_set_left grows_set_right : frame.

(** Whatever [_recolor] returns on a non-empty tree is a node. *)
Lemma recolor_returns_node fuel : forall x s r s',
  _recolor fuel x s = (Ok r, s') -> root s <> None -> r <> None.
Proof.
  induction fuel as [|fuel IH]; intros x s r s' H Hroot; simpl in H;
    [discriminate|].
  destruct x as [n|]; [|discriminate].
  apply bind_Ok in H as (uncle & s1 & E & H).
  apply readonly_state in E; [subst s1 | auto with ro].
  apply bind_Ok in H as (parent & s1 & E & H).
  apply readonly_state in E; [subst s1 | auto with ro].
  apply bind_Ok in H as (grandparent & s1 & E & H).
  apply readonly_state in E; [subst s1 | destruct parent; auto with ro].
  destruct parent as [p|]; [|injection H as <- _; discriminate].
  destruct grandparent as [g|]; [|injection H as <- _; discriminate].
  apply bind_Ok in H as (pc & s1 & E & H).
  apply readonly_state in E; [subst s1 | auto with ro].
  destruct (Color_eqb pc BLACK).
  - injection H as <- _. exact Hroot.
  - apply bind_Ok in H as (red & s1 & E & H).
    apply readonly_state in E; [subst s1 | auto with ro].
    apply bind_Ok in H as (g' & s2 & E & H).
    apply (IH _ _ _ _ H).
    assert (grows s s2) as [-> _]; [|exact Hroot].
    eapply stable_result; [|exact E]. frame.
Qed.

Lemma lookup_fresh (h : list BasicNode) n :
  (h ++ [n])%list !! List.length h = Some n.
Proof. rewrite lookup_app_r, Nat.sub_diag by lia. reflexivity. Qed.

Lemma counted_BasicNode_init v c s : counted s -> counted (snd (BasicNode_init v c s)).
Proof.
  intros H. unfold BasicNode_init, adjudging, bind. destruct v; simpl; exact H.
Qed.

Lemma counted_insert fuel v s : counted s -> counted (snd (insert fuel v s)).
Proof.
  intros H. unfold insert. destruct (is_None v) eqn:Hv; [exact H|].
  unfold counted in H. unfold is_empty, get_root, bind at 1 2. simpl.
  destruct (root s) as [r|] eqn:Hr; simpl.
  - unfold bind at 1.
    destruct (_insert fuel v s) as [o1 s1] eqn:E1.
    pose proof (stable_result _ _ _ _ _ (grows_insert_ fuel v) E1) as [R1 L1].
    assert (counted s1) as C1 by (unfold counted; rewrite R1, Hr; lia).
    destruct o1 as [new_node| | |]; simpl; try exact C1.
    unfold bind at 1.
    destruct (_recolor fuel new_node s1) as [o2 s2] eqn:E2.
    pose proof (stable_result _ _ _ _ _ (grows_recolor fuel new_node) E2) as [R2 L2].
    assert (counted s2) as C2 by (unfold counted; rewrite R2, R1, Hr; lia).
    destruct o2 as [r2| | |]; simpl; try exact C2.
    assert (r2 <> None) as Hr2.
    { apply (recolor_returns_node _ _ _ _ _ E2). rewrite R1, Hr. discriminate. }
    destruct r2 as [r2|]; [|contradiction].
    unfold bind, put_root, get_root, set_color, modify. simpl.
    destruct (heap s2 !! r2); unfold counted; simpl; lia.
  - unfold BasicNode_init, adjudging.
    destruct v; try discriminate; simpl;
      unfold bind, alloc, put_root, get_root, set_color, modify; simpl;
      try (unfold counted; rewrite Hr; exact H);
      rewrite lookup_fresh; unfold counted; simpl; lia.
Qed.

Lemma counted_reachable s : reachable s -> counted s.
Proof.
  induction 1.
  - reflexivity.
  - now apply counted_insert.
  - now apply counted_BasicNode_init.
Qed.

Lemma reachable_insert_all fuel items : forall s,
  reachable s -> reachable (snd (insert_all fuel items s)).
Proof.
  induction items as [|item rest IH]; intros s H; simpl; [exact H|].
  unfold bind. pose proof (reach_insert s fuel item H) as H1.
  destruct (insert fuel item s) as [[[]| | |] s1]; simpl in *; auto.
Qed.

Lemma reachable_RBT_init fuel iterable : reachable (snd (run (RBT_init fuel iterable))).
Proof.
  destruct iterable as [items|]; [|exact reach_new].
  exact (reachable_insert_all fuel items _ reach_new).
Qed.

(** * The claims *)

(** ** Swapping *)

(** C10: [BasicNode.swap] is an involution. For any two nodes [a] and
    [b] of the store (the same node twice included), [swap(a, b)] returns
    and leaves each with the other's stored object and colour; a second
    [swap(a, b)] returns and gives back the store as it was; and the
    first call changes no [_left], [_right] or [_parent] of any node (the
    second then cannot either, the store being the original again). *)
Theorem swap_is_involution s a b na nb :
  heap s !! a = Some na -> heap s !! b = Some nb ->
  exists s1,
    swap (VNode a) (VNode b) s = (Ok tt, s1) /\
    heap s1 !! a = Some (exchanged na nb) /\
    heap s1 !! b = Some (exchanged nb na) /\
    map links (heap s1) = map links (heap s) /\
    swap (VNode a) (VNode b) s1 = (Ok tt, s).
Proof.
  intros Ha Hb.
  pose proof (lookup_lt_Some _ _ _ Ha) as La.
  pose proof (lookup_lt_Some _ _ _ Hb) as Lb.
  exists (set_heap (<[b:=exchanged nb na]> (<[a:=exchanged na nb]> (heap s))) s).
  split; [apply (swap_result _ _ _ _ _ Ha Hb)|].
  assert (<[b:=exchanged nb na]> (<[a:=exchanged na nb]> (heap s)) !! a
          = Some (exchanged na nb)) as Ha1.
  { destruct (decide (a = b)) as [->|Hne].
    - assert (na = nb) by congruence. subst nb.
      apply list_lookup_insert_eq. now rewrite length_insert.
    - rewrite list_lookup_insert_ne by congruence.
      now apply list_lookup_insert_eq. }
  assert (<[b:=exchanged nb na]> (<[a:=exchanged na nb]> (heap s)) !! b
          = Some (exchanged nb na)) as Hb1.
  { apply list_lookup_insert_eq. now rewrite length_insert. }
  split; [exact Ha1|]. split; [exact Hb1|]. split.
  - cbn [heap set_heap]. change (map links) with (fmap (M:=list) links).
    rewrite !list_fmap_insert.
    change (links (exchanged nb na)) with (links nb).
    change (links (exchanged na nb)) with (links na).
    rewrite (list_insert_id (links <$> heap s) a)
      by (rewrite list_lookup_fmap, Ha; reflexivity).
    apply list_insert_id. rewrite list_lookup_fmap, Hb. reflexivity.
  - rewrite (swap_result (set_heap _ s) a b _ _ Ha1 Hb1). f_equal.
    replace (exchanged (exchanged nb na) (exchanged na nb)) with nb
      by (destruct na, nb; reflexivity).
    replace (exchanged (exchanged na nb) (exchanged nb na)) with na
      by (destruct na, nb; reflexivity).
    destruct s as [h r len w]. unfold set_heap. simpl in *. f_equal.
    destruct (decide (a = b)) as [->|Hne].
    + rewrite !list_insert_insert_eq. now apply list_insert_id.
    + rewrite (list_insert_insert_ne _ a b) by congruence.
      rewrite !list_insert_insert_eq.
      rewrite (list_insert_id _ a) by exact Ha.
      now apply list_insert_id.
Qed.

Lemma swap_is_involution_witness :
  let s := tree_of 5 [10; 5]%Z in
  let n0 := mkNode BLACK (Some 1) None (VInt 10) None in
  let n1 := mkNode RED None None (VInt 5) (Some 0) in
  heap s !! 0 = Some n0 /\ heap s !! 1 = Some n1 /\
  exists s1,
    swap (VNode 0) (VNode 1) s = (Ok tt, s1) /\
    heap s1 !! 0 = Some (exchanged n0 n1) /\
    heap s1 !! 1 = Some (exchanged n1 n0) /\
    map links (heap s1) = map links (heap s) /\
    swap (VNode 0) (VNode 1) s1 = (Ok tt, s).
Proof.
  intros s n0 n1.
  split; [reflexivity|]. split; [reflexivity|].
  apply (swap_is_involution s 0 1 n0 n1); reflexivity.
Defined.

(** ** Emptiness *)

(** C8: in every state reached from [RBT()] by calls of [insert],
    [is_empty()] returns, and it returns [True] exactly when
    [_length == 0] and [root is None]; being empty, having length zero
    and having no root are equivalent. *)
Theorem is_empty_iff_zero_length_iff_no_root s :
  reachable s ->
  exists b,
    is_empty s = (Ok b, s) /\
    (b = true <-> _length s = 0%Z /\ root s = None) /\
    (b = true <-> _length s = 0%Z) /\
    (_length s = 0%Z <-> root s = None).
Proof.
  intros H. apply counted_reachable in H. unfold counted in H.
  unfold is_empty, get_root, bind, ret. simpl.
  destruct (root s) as [r|]; eexists; (split; [reflexivity|]).
  - repeat split; intros; try discriminate; try lia; intuition discriminate.
  - repeat split; auto.
Qed.

Lemma is_empty_iff_zero_length_iff_no_root_witness :
  let s := tree_of 5 [10; 5; 15]%Z in
  reachable s /\
  exists b,
    is_empty s = (Ok b, s) /\
    (b = true <-> _length s = 0%Z /\ root s = None) /\
    (b = true <-> _length s = 0%Z) /\
    (_length s = 0%Z <-> root s = None).
Proof.
  intros s.
  assert (reachable s) as H by apply reachable_RBT_init.
  split; [exact H|].
  exact (is_empty_iff_zero_length_iff_no_root s H).
Defined.

(** ** Insertion is not rolled back *)

Lemma set_child_attaches (f : option addr -> BasicNode -> BasicNode)
    start new s u s' :
  (forall n, _left (f (Some new) n) = Some new \/ _right (f (Some new) n) = Some new) ->
  (forall n p, f (Some new) (with_parent p n) = with_parent p (f (Some new) n)) ->
  (modify start (f (Some new)) ;; modify new (with_parent (Some start))) s
    = (Ok u, s') ->
  root s' = root s /\ _length s' = _length s /\ warned s' = warned s /\
  attached new s'.
Proof.
  intros Hf Hc H.
  apply bind_Ok in H as ([] & sa & H1 & H2).
  apply modify_result in H1 as [(n & Hn & _ & ->)|(_ & ? & _)]; [|discriminate].
  apply modify_result in H2 as [(m & Hm & _ & ->)|(_ & ? & _)]; [|discriminate].
  simpl in *. do 3 (split; [reflexivity|]).
  pose proof (lookup_lt_Some _ _ _ Hn) as Ln.
  pose proof (lookup_lt_Some _ _ _ Hm) as Lm.
  destruct (decide (start = new)) as [->|Hne].
  - rewrite list_lookup_insert_eq in Hm by assumption. injection Hm as <-.
    exists new, (with_parent (Some new) (f (Some new) n)),
      (with_parent (Some new) (f (Some new) n)). simpl.
    rewrite list_lookup_insert_eq by assumption.
    repeat split; auto.
  - exists start, (f (Some new) n), (with_parent (Some start) m). simpl.
    rewrite list_lookup_insert_ne by congruence.
    rewrite list_lookup_insert_eq by assumption.
    rewrite list_lookup_insert_eq by assumption.
    repeat split; auto.
Qed.

Lemma set_left_attaches start new s u s' :
  set_left start (Some new) s = (Ok u, s') ->
  root s' = root s /\ _length s' = _length s /\ warned s' = warned s /\
  attached new s'.
Proof.
  apply (set_child_attaches with_left); [left; reflexivity | reflexivity].
Qed.

Lemma set_right_attaches start new s u s' :
  set_right start (Some new) s = (Ok u, s') ->
  root s' = root s /\ _length s' = _length s /\ warned s' = warned s /\
  attached new s'.
Proof.
  apply (set_child_attaches with_right); [right; reflexivity | reflexivity].
Qed.

Lemma warned_grew (w : list pyval) v : (w ++ [v])%list <> w.
Proof.
  intros H. apply (f_equal (@List.length _)) in H.
  rewrite length_app in H. simpl in H. lia.
Qed.

(** When [_insert_node] returns without a duplicate warning, it has
    hung the new node in the tree and counted it. *)
Lemma insert_node_attaches fuel : forall start new s r s1,
  _insert_node fuel start (Some new) s = (Ok r, s1) ->
  warned s1 = warned s ->
  r = Some new /\ _length s1 = (_length s + 1)%Z /\ root s1 = root s /\
  attached new s1.
Proof.
  induction fuel as [|fuel IH]; intros start new s r s1 H W; simpl in H;
    [discriminate|].
  destruct start as [start|]; [|discriminate].
  apply bind_Ok in H as (value & s0 & E & H).
  apply readonly_state in E; [subst s0 | auto with ro].
  apply bind_Ok in H as (d & s0 & E & H).
  apply readonly_state in E; [subst s0 | auto with ro].
  destruct (py_eq value d).
  { apply bind_Ok in H as ([] & s0 & E & H).
    destruct (warn_result value s) as [(_ & Ew)|(_ & Ew)]; rewrite Ew in E;
      [|discriminate].
    injection E as <-. injection H as _ <-. simpl in W.
    now apply warned_grew in W. }
  apply bind_Ok in H as (d' & s0 & E & H).
  apply readonly_state in E; [subst s0 | auto with ro].
  apply bind_Ok in H as (lt & s0 & E & H).
  apply readonly_state in E; [subst s0 | auto with ro].
  destruct lt.
  - apply bind_Ok in H as (l & s0 & E & H).
    apply readonly_state in E; [subst s0 | auto with ro].
    destruct l as [l|]; [exact (IH _ _ _ _ _ H W)|].
    apply bind_Ok in H as (u & s0 & E & H).
    apply set_left_attaches in E as (R0 & L0 & W0 & A0).
    apply bind_Ok in H as ([] & s0' & E & H).
    injection E as <-. injection H as <- <-. simpl.
    repeat split; auto. lia.
  - apply bind_Ok in H as (l & s0 & E & H).
    apply readonly_state in E; [subst s0 | auto with ro].
    destruct l as [l|]; [exact (IH _ _ _ _ _ H W)|].
    apply bind_Ok in H as (u & s0 & E & H).
    apply set_right_attaches in E as (R0 & L0 & W0 & A0).
    apply bind_Ok in H as ([] & s0' & E & H).
    injection E as <-. injection H as <- <-. simpl.
    repeat split; auto. lia.
Qed.

Lemma BasicNode_init_Ok v c s a s' :
  BasicNode_init v c s = (Ok a, s') ->
  s' = set_heap (heap s ++ [mkNode c None None v None]) s.
Proof.
  unfold BasicNode_init. intros H.
  apply bind_Ok in H as ([] & s0 & E & H).
  apply readonly_state in E; [subst s0 | auto with ro].
  now injection H as _ <-.
Qed.

Lemma insert_attaches fuel v s r s1 :
  _insert fuel v s = (Ok r, s1) ->
  warned s1 = warned s ->
  exists new,
    r = Some new /\ _length s1 = (_length s + 1)%Z /\ root s1 = root s /\
    attached new s1.
Proof.
  unfold _insert. intros H W.
  apply bind_Ok in H as ([] & s0 & E & H).
  apply readonly_state in E; [subst s0 | auto with ro].
  assert (forall new s0,
            root s0 = root s -> _length s0 = _length s -> warned s0 = warned s ->
            (r0 <- get_root ;; _insert_node fuel r0 (Some new)) s0 = (Ok r, s1) ->
            exists new, r = Some new /\ _length s1 = (_length s + 1)%Z /\
                        root s1 = root s /\ attached new s1) as Hnode.
  { intros new s0 R0 L0 W0 H0.
    apply bind_Ok in H0 as (r0 & s0' & E & H0). injection E as <- <-.
    apply insert_node_attaches in H0 as (-> & L & R & A); [|congruence].
    exists new. repeat split; auto; congruence. }
  assert ((r0 <- get_root ;; _insert_numeric fuel r0 v) s = (Ok r, s1) ->
          exists new, r = Some new /\ _length s1 = (_length s + 1)%Z /\
                      root s1 = root s /\ attached new s1) as Hnum.
  { intros H0.
    apply bind_Ok in H0 as (r0 & s0 & E & H0). injection E as <- <-.
    unfold _insert_numeric in H0.
    apply bind_Ok in H0 as ([] & s0 & E & H0).
    apply readonly_state in E; [subst s0 | auto with ro].
    apply bind_Ok in H0 as ([] & s0 & E & H0).
    apply readonly_state in E; [subst s0 | auto with ro].
    apply bind_Ok in H0 as (new & s0 & E & H0).
    apply BasicNode_init_Ok in E. subst s0.
    apply insert_node_attaches in H0 as (-> & L & R & A); [|exact W].
    exists new. repeat split; auto. }
  destruct v; try (exact (Hnum H)).
  exact (Hnode _ s eq_refl eq_refl eq_refl H).
Qed.

Lemma recoloured_lookup s s' a n :
  recoloured s s' -> heap s !! a = Some n ->
  exists n', heap s' !! a = Some n' /\ links n' = links n /\ _data n' = _data n.
Proof.
  intros (_ & _ & _ & H) Hn.
  assert ((with_color BLACK <$> heap s') !! a = Some (with_color BLACK n)) as H'.
  { change (fmap (M:=list) (with_color BLACK)) with (map (with_color BLACK)).
    rewrite H. change (map (with_color BLACK)) with (fmap (M:=list) (with_color BLACK)).
    rewrite list_lookup_fmap, Hn. reflexivity. }
  rewrite list_lookup_fmap in H'.
  destruct (heap s' !! a) as [n'|]; [|discriminate].
  exists n'. split; [reflexivity|]. injection H' as Hl Hr Hd Hp.
  unfold links. split; congruence.
Qed.

Lemma recoloured_attached s s' new : recoloured s s' -> attached new s -> attached new s'.
Proof.
  intros R (p & np & nn & Hp & Hc & Hn & Hpar).
  destruct (recoloured_lookup _ _ _ _ R Hp) as (np' & Hp' & Lp & _).
  destruct (recoloured_lookup _ _ _ _ R Hn) as (nn' & Hn' & Ln & _).
  exists p, np', nn'. unfold links in *.
  injection Lp as -> -> _. injection Ln as _ _ ->. auto.
Qed.

(** C9: [insert] on a non-empty tree is not atomic. When [_insert] has
    hung a new node in the tree (it returned without a duplicate
    warning) and the recolouring procedure then raises, [insert] raises
    that exception and leaves the store as the recolouring left it
    (changed in colours only): [_length] was incremented before the
    recolouring ran and stays incremented, and the new node stays hung
    under its parent. *)
Theorem insert_is_not_rolled_back fuel v s new_node s1 e s2 :
  is_None v = false -> root s <> None ->
  _insert fuel v s = (Ok new_node, s1) ->
  warned s1 = warned s ->
  _recolor fuel new_node s1 = (Raise e, s2) ->
  insert fuel v s = (Raise e, s2) /\
  _length s1 = (_length s + 1)%Z /\
  _length s2 = (_length s + 1)%Z /\
  root s2 = root s /\
  recoloured s1 s2 /\
  exists new, new_node = Some new /\ attached new s1 /\ attached new s2.
Proof.
  intros Hv Hroot Hi W Hr.
  destruct (insert_attaches _ _ _ _ _ Hi W) as (new & -> & L & R & A).
  pose proof (stable_result _ _ _ _ _ (recoloured_recolor fuel (Some new)) Hr)
    as Hrec.
  split.
  - unfold insert. rewrite Hv. unfold is_empty, get_root, bind at 1 2. simpl.
    destruct (root s); [|contradiction]. simpl.
    rewrite (bind_step _ _ _ _ _ Hi). apply bind_stop. exact Hr.
  - destruct Hrec as (R2 & L2 & W2 & H2) eqn:E. clear E.
    repeat split; try congruence; auto.
    exists new. repeat split; auto.
    apply (recoloured_attached s1); [repeat split; auto | exact A].
Qed.

Lemma insert_is_not_rolled_back_witness :
  let s := tree_of 5 [1; 2]%Z in
  let s1 := snd (_insert 5 (VInt 3) s) in
  let s2 := snd (_recolor 5 (Some 2) s1) in
  is_None (VInt 3) = false /\ root s <> None /\
  _insert 5 (VInt 3) s = (Ok (Some 2), s1) /\
  warned s1 = warned s /\
  _recolor 5 (Some 2) s1 = (Raise AttributeError, s2) /\
  insert 5 (VInt 3) s = (Raise AttributeError, s2) /\
  _length s1 = (_length s + 1)%Z /\
  _length s2 = (_length s + 1)%Z /\
  root s2 = root s /\
  recoloured s1 s2 /\
  exists new, Some 2 = Some new /\ attached new s1 /\ attached new s2.
Proof.
  intros s s1 s2.
  assert (is_None (VInt 3) = false) as H1 by reflexivity.
  assert (root s <> None) as H2 by (vm_compute; discriminate).
  assert (_insert 5 (VInt 3) s = (Ok (Some 2), s1)) as H3 by (vm_compute; reflexivity).
  assert (warned s1 = warned s) as H4 by (vm_compute; reflexivity).
  assert (_recolor 5 (Some 2) s1 = (Raise AttributeError, s2)) as H5
    by (vm_compute; reflexivity).
  repeat (split; [assumption|]).
  exact (insert_is_not_rolled_back 5 (VInt 3) s (Some 2) s1 AttributeError s2
           H1 H2 H3 H4 H5).
Defined.

(** ** The invariants after insertion *)

(** C1, at the ascending values 1, 2, 3 (any large enough recursion
    budget). After [insert(1)] and [insert(2)] the four invariants hold.
    [insert(3)] does not complete: it raises AttributeError, from the call
    of [set_parent] in [_rotate_left], and leaves a tree of three nodes
    whose root is RED and whose paths do not carry the same number of
    BLACK nodes. A further [insert(0)] completes, and the invariants
    still fail after it. *)
Theorem ascending_insertion_breaks_invariants k :
  let fuel := 3 + k in
  let s := tree_of fuel [1; 2]%Z in
  let s' := snd (insert fuel (VInt 3) s) in
  let s'' := snd (insert fuel (VInt 0) s') in
  fst (built fuel [1; 2]%Z) = Ok tt /\
  red_black (tree_shape s) = true /\
  fst (insert fuel (VInt 3) s) = Raise AttributeError /\
  tree_shape s' =
    Node RED Leaf (VInt 1) (Node BLACK Leaf (VInt 2) (Node RED Leaf (VInt 3) Leaf)) /\
  _length s' = 3%Z /\
  root_is_black (tree_shape s') = false /\
  uniform_black_count (tree_shape s') = false /\
  fst (insert fuel (VInt 0) s') = Ok tt /\
  tree_shape s'' =
    Node BLACK (Node RED Leaf (VInt 0) Leaf) (VInt 1)
         (Node BLACK Leaf (VInt 2) (Node RED Leaf (VInt 3) Leaf)) /\
  uniform_black_count (tree_shape s'') = false /\
  red_black (tree_shape s'') = false.
Proof. intros fuel s s' s''. vm_compute. repeat split. Qed.

(** C2, at [RBT([1, 2, 3])]: the third insertion reaches the right-right
    branch of case III, recolours, and raises AttributeError inside
    [_rotate_left]; no rotation takes place. The root is still the node
    of 1, now RED, with nothing on its left; the tree is not 2 over 1
    and 3, whatever the colours. *)
Theorem ascending_three_is_not_rotated k :
  let fuel := 3 + k in
  let s := tree_of fuel [1; 2; 3]%Z in
  fst (built fuel [1; 2; 3]%Z) = Raise AttributeError /\
  root s = Some 0 /\
  heap s !! 0 = Some (mkNode RED None (Some 1) (VInt 1) None) /\
  heap s !! 1 = Some (mkNode BLACK None (Some 2) (VInt 2) (Some 0)) /\
  heap s !! 2 = Some (mkNode RED None None (VInt 3) (Some 1)) /\
  _rotate_left (Some 0) s = (Raise AttributeError, s) /\
  forall c c1 c3,
    tree_shape s <>
    Node c (Node c1 Leaf (VInt 1) Leaf) (VInt 2) (Node c3 Leaf (VInt 3) Leaf).
Proof.
  intros fuel s. vm_compute. repeat split. intros c c1 c3. discriminate.
Qed.

(** ** Duplicates *)

(** C3, at the tree built from 4, 2, 6, 1, 3, 5, 7, 0, 8 (a red-black
    tree that holds 1) and a second [insert(1)]: the call returns, warns
    once and leaves [_length] at 9 and every link as it was, but it
    recolours from the node that holds 1: the nodes of 2 and 6 turn from
    RED to BLACK. *)
Theorem duplicate_insert_recolours k :
  let fuel := 5 + k in
  let s := tree_of fuel [4; 2; 6; 1; 3; 5; 7; 0; 8]%Z in
  let s' := snd (insert fuel (VInt 1) s) in
  fst (built fuel [4; 2; 6; 1; 3; 5; 7; 0; 8]%Z) = Ok tt /\
  red_black (tree_shape s) = true /\
  In (VInt 1) (values (tree_shape s)) /\
  fst (insert fuel (VInt 1) s) = Ok tt /\
  warned s = [] /\ warned s' = [VInt 1] /\
  _length s = 9%Z /\ _length s' = 9%Z /\
  map links (firstn 9 (heap s')) = map links (heap s) /\
  tree_shape s =
    Node BLACK
      (Node RED (Node BLACK (Node RED Leaf (VInt 0) Leaf) (VInt 1) Leaf)
         (VInt 2) (Node BLACK Leaf (VInt 3) Leaf))
      (VInt 4)
      (Node RED (Node BLACK Leaf (VInt 5) Leaf) (VInt 6)
         (Node BLACK Leaf (VInt 7) (Node RED Leaf (VInt 8) Leaf))) /\
  tree_shape s' =
    Node BLACK
      (Node BLACK (Node BLACK (Node RED Leaf (VInt 0) Leaf) (VInt 1) Leaf)
         (VInt 2) (Node BLACK Leaf (VInt 3) Leaf))
      (VInt 4)
      (Node BLACK (Node BLACK Leaf (VInt 5) Leaf) (VInt 6)
         (Node BLACK Leaf (VInt 7) (Node RED Leaf (VInt 8) Leaf))) /\
  tree_shape s' <> tree_shape s.
Proof.
  intros fuel s s'. vm_compute. repeat split; auto 10. discriminate.
Qed.

(** On the tree of the eight-value scenario a second [insert(1)] even
    raises: the node of 1 has a RED parent and a BLACK uncle, so the
    recolouring goes into case III and its rotation. *)
Lemma duplicate_insert_can_raise k :
  let fuel := 5 + k in
  let s := tree_of fuel [13; 8; 17; 1; 11; 15; 25; 6]%Z in
  let s' := snd (insert fuel (VInt 1) s) in
  fst (insert fuel (VInt 1) s) = Raise AttributeError /\
  warned s' = [VInt 1] /\
  root_is_black (tree_shape s') = false.
Proof. intros fuel s s'. vm_compute. repeat split. Qed.

(** ** The eight-value scenario *)

(** C4 as stated fails: the node of 8 is not BLACK. *)
Lemma scenario_eight_is_not_black :
  ~ scenario BLACK (tree_shape (tree_of 5 [13; 8; 17; 1; 11; 15; 25; 6]%Z)).
Proof.
  intros (l8 & r8 & l17 & r17 & H & _). vm_compute in H. discriminate.
Qed.

(** C4, amended: inserting 13, 8, 17, 1, 11, 15, 25, 6 in that order
    completes (for any large enough recursion budget) and yields the
    root 13, BLACK, with children 8, RED, and 17, BLACK; 1 and 11 are
    under 8, 15 and 25 under 17; every path from the root to an empty
    position carries two BLACK nodes; the four invariants hold. *)
Theorem scenario_eight_values k :
  let fuel := 5 + k in
  let s := tree_of fuel [13; 8; 17; 1; 11; 15; 25; 6]%Z in
  fst (built fuel [13; 8; 17; 1; 11; 15; 25; 6]%Z) = Ok tt /\
  scenario RED (tree_shape s) /\
  tree_shape s =
    Node BLACK
      (Node RED (Node BLACK Leaf (VInt 1) (Node RED Leaf (VInt 6) Leaf))
         (VInt 8) (Node BLACK Leaf (VInt 11) Leaf))
      (VInt 13)
      (Node BLACK (Node RED Leaf (VInt 15) Leaf) (VInt 17)
         (Node RED Leaf (VInt 25) Leaf)) /\
  black_counts (tree_shape s) = [2; 2; 2; 2; 2; 2; 2; 2; 2] /\
  red_black (tree_shape s) = true /\
  _length s = 8%Z.
Proof.
  intros fuel s. vm_compute. repeat split.
  do 4 eexists. split; [reflexivity|]. simpl.
  repeat split; auto 10.
Qed.

(** ** Values that are not numbers *)

(** An object that is not [None], not an [int] or a [float] and not an
    instance of [HouseOfHades] never meets a TypeError in [insert]: on
    an empty tree it is stored in the root, on a non-empty tree the
    assertion of [_insert] fails. *)
Lemma insert_of_a_non_number fuel v s :
  is_None v = false -> is_numeric v = false -> isinstance_HouseOfHades v = false ->
  match root s with
  | None =>
      insert fuel v s =
        (Ok tt,
         mkState (heap s ++ [mkNode BLACK None None v None])
                 (Some (List.length (heap s))) (_length s + 1) (warned s))
  | Some _ => insert fuel v s = (Raise AssertionError, s)
  end.
Proof.
  intros H1 H2 H3. destruct (root s) as [r|] eqn:Hr.
  - assert (isinstance_BasicNode v = false) as H4 by (destruct v; auto; discriminate).
    unfold insert, is_empty, get_root, _insert, bind. rewrite H1. simpl.
    rewrite Hr, H2, H4. reflexivity.
  - unfold insert, is_empty, get_root, BasicNode_init, adjudging, bind.
    rewrite H1. simpl. rewrite Hr, H3. simpl.
    unfold set_color, modify. simpl. rewrite lookup_fresh. simpl.
    unfold incr_length, set_length, set_heap. simpl.
    rewrite insert_app_r_alt, Nat.sub_diag by lia. reflexivity.
Qed.

(** C5, at the string ["2"]: on an empty tree [insert("2")] returns and
    stores the string in the root; on the tree of 10, 5, 15 it raises
    AssertionError and changes nothing. Neither is a TypeError. The
    same holds for an [RBT] instance. *)
Theorem insert_of_a_string_is_no_type_error fuel :
  let empty := snd (run (RBT_init fuel None)) in
  let s := tree_of 5 [10; 5; 15]%Z in
  is_None (VStr "2") = false /\
  is_numeric (VStr "2") = false /\
  isinstance_BasicNode (VStr "2") = false /\
  fst (insert fuel (VStr "2") empty) = Ok tt /\
  tree_shape (snd (insert fuel (VStr "2") empty)) = Node BLACK Leaf (VStr "2") Leaf /\
  insert fuel (VStr "2") s = (Raise AssertionError, s) /\
  fst (insert fuel (VTree 7) empty) = Ok tt /\
  tree_shape (snd (insert fuel (VTree 7) empty)) = Node BLACK Leaf (VTree 7) Leaf /\
  insert fuel (VTree 7) s = (Raise AssertionError, s).
Proof. intros empty s. vm_compute. repeat split. Qed.

(** ** Rotations *)

Lemma rotate_left_untouched x : stable eq (_rotate_left x).
Proof. unfold _rotate_left. frame. Qed.

Lemma rotate_right_untouched x : stable eq (_rotate_right x).
Proof. unfold _rotate_right. frame. Qed.

(** C6: no rotation ever returns. On every state and every argument,
    [_rotate_left] and [_rotate_right] end without returning and leave
    the state untouched, so there is no returned subtree root to rotate
    back; on the tree of 1, 2 (the root has a right child)
    [_rotate_left(root)] raises AttributeError, and on the tree of 2, 1
    [_rotate_right(root)] does. *)
Theorem rotations_do_not_return x s :
  (forall m, fst (_rotate_left x s) <> Ok m) /\
  snd (_rotate_left x s) = s /\
  (forall m, fst (_rotate_right x s) <> Ok m) /\
  snd (_rotate_right x s) = s /\
  (let t := tree_of 5 [1; 2]%Z in
   root t = Some 0 /\
   heap t !! 0 = Some (mkNode BLACK None (Some 1) (VInt 1) None) /\
   _rotate_left (root t) t = (Raise AttributeError, t)) /\
  (let t := tree_of 5 [2; 1]%Z in
   root t = Some 0 /\
   heap t !! 0 = Some (mkNode BLACK (Some 1) None (VInt 2) None) /\
   _rotate_right (root t) t = (Raise AttributeError, t)).
Proof.
  split; [apply never_ok_rotate_left|].
  split; [symmetry; apply rotate_left_untouched|].
  split; [apply never_ok_rotate_right|].
  split; [symmetry; apply rotate_right_untouched|].
  split; vm_compute; repeat split.
Qed.

(** ** The shared check *)

Lemma checked_insert_ fuel v : stable keeps_data_checked (_insert fuel v).
Proof. apply stable_insert_; try typeclasses eauto; auto with frame. Qed.

Lemma checked_recolor fuel x : stable keeps_data_checked (_recolor fuel x).
Proof. apply stable_recolor; try typeclasses eauto; auto with frame. Qed.

#[local] Hint Resolve checked_insert_ checked_recolor : frame.

Lemma checked_insert fuel v : stable keeps_data_checked (insert fuel v).
Proof. unfold insert. frame. Qed.

Lemma data_checked_reachable s : reachable s -> data_checked s.
Proof.
  induction 1.
  - constructor.
  - now apply checked_insert.
  - now apply checked_BasicNode_init.
Qed.


(** An [RBT] instance is not a [HouseOfHades], so the check lets it
    through: a tree can be stored as the value of a node. *)
Lemma a_tree_passes_the_check s c :
  isinstance_HouseOfHades (VTree 7) = false /\
  adjudging (VTree 7) s = (Ok tt, s) /\
  fst (BasicNode_init (VTree 7) c s) = Ok (List.length (heap s)).
Proof. repeat split. Qed.

(** * Further properties *)

(** ** What every call of insert does *)

Lemma bind_snd {A B} (m : M A) (k : A -> M B) s :
  snd (bind m k s) =
  match m s with
  | (Ok a, s1) => snd (k a s1)
  | (_, s1) => s1
  end.
Proof. unfold bind. now destruct (m s) as [[a| | |] s1]. Qed.

(** X1: when [insert] returns, the tree has a root, the root is BLACK,
    and [is_empty()] answers [False]. *)
Theorem insert_leaves_a_black_root fuel v s s' :
  insert fuel v s = (Ok tt, s') ->
  exists r n,
    root s' = Some r /\ heap s' !! r = Some n /\ _color n = BLACK /\
    is_empty s' = (Ok false, s').
Proof.
  unfold insert. destruct (is_None v); [discriminate|]. intros H.
  apply bind_Ok in H as (e & s0 & E & H).
  apply readonly_state in E; [subst s0 | auto with ro].
  assert (forall (s1 : state) r u s2,
            (put_root r ;; r0 <- get_root ;; on r0 (fun r0 => set_color r0 BLACK)) s1
              = (Ok u, s2) ->
            exists a n, r = Some a /\ root s2 = Some a /\
                        heap s2 !! a = Some (with_color BLACK n) /\
                        _length s2 = _length s1) as Hend.
  { intros s1 r u s2 H1.
    apply bind_Ok in H1 as ([] & s3 & E1 & H1). injection E1 as <-.
    apply bind_Ok in H1 as (r0 & s3 & E1 & H1). injection E1 as <- <-.
    simpl in H1. destruct r as [a|]; [|discriminate]. simpl in H1.
    apply modify_result in H1 as [(n & Hn & _ & ->)|(_ & ? & _)]; [|discriminate].
    exists a, n. simpl in *. repeat split.
    apply list_lookup_insert_eq. exact (lookup_lt_Some _ _ _ Hn). }
  destruct e.
  - apply bind_Ok in H as (a & s1 & E & H).
    apply bind_Ok in H as ([] & s2 & E2 & H).
    apply bind_Ok in H as (r0 & s3 & E3 & H).
    injection E2 as <-. injection E3 as <- <-. simpl in H.
    apply bind_Ok in H as ([] & s4 & E4 & H).
    apply modify_result in E4 as [(n & Hn & _ & ->)|(_ & ? & _)]; [|discriminate].
    injection H as <-. simpl in *.
    exists a, (with_color BLACK n). repeat split.
    apply list_lookup_insert_eq. exact (lookup_lt_Some _ _ _ Hn).
  - apply bind_Ok in H as (new_node & s1 & E1 & H).
    apply bind_Ok in H as (r & s2 & E2 & H).
    apply Hend in H as (a & n & -> & Hr & Hn & _).
    exists a, (with_color BLACK n). repeat split; auto.
    unfold is_empty, get_root, bind, ret. simpl. now rewrite Hr.
Qed.

Lemma insert_leaves_a_black_root_witness :
  let s := tree_of 5 [10; 5]%Z in
  let s' := snd (insert 5 (VInt 15) s) in
  insert 5 (VInt 15) s = (Ok tt, s') /\
  exists r n,
    root s' = Some r /\ heap s' !! r = Some n /\ _color n = BLACK /\
    is_empty s' = (Ok false, s').
Proof.
  intros s s'.
  assert (insert 5 (VInt 15) s = (Ok tt, s')) as H by (vm_compute; reflexivity).
  split; [exact H|]. exact (insert_leaves_a_black_root 5 (VInt 15) s s' H).
Defined.

Lemma bind_inv {A B} (m : M A) (k : A -> M B) s o s' :
  bind m k s = (o, s') ->
  (exists a s1, m s = (Ok a, s1) /\ k a s1 = (o, s'))
  \/ (exists o1, m s = (o1, s') /\ (forall a, o1 <> Ok a) /\ forall b, o <> Ok b).
Proof.
  unfold bind. destruct (m s) as [[a| | |] s1]; intros H.
  - left. eauto.
  - right. injection H as <- <-. eexists. repeat split; discriminate.
  - right. injection H as <- <-. eexists. repeat split; discriminate.
  - right. injection H as <- <-. eexists. repeat split; discriminate.
Qed.

(** Steps over a read in [H : bind m k s = (o, s')]: either the read
    failed, and the state is the one before, or it gave a value. *)
Ltac read_in H E tac :=
  let o1 := fresh "o" in let s0 := fresh "s" in
  let Hf := fresh "Hf" in let Hn := fresh "Hn" in
  apply bind_inv in H as [(? & s0 & E & H)|(o1 & E & Hf & Hn)];
  [ apply readonly_state in E; [subst s0 | auto with ro]
  | apply readonly_state in E; [subst | auto with ro]; tac Hn ].

#[local] Instance attributes_kept_preorder : PreOrder attributes_kept.
Proof.
  split.
  - intros s. repeat split.
  - intros s1 s2 s3 (?&?&?) (?&?&?). repeat split; congruence.
Qed.

Lemma attributes_kept_modify a f : stable attributes_kept (modify a f).
Proof.
  intros s. destruct (modify a f s) as [o s'] eqn:E.
  apply modify_result in E as [(n & _ & _ & ->)|(_ & _ & ->)]; repeat split.
Qed.
#[local] Hint Resolve attributes_kept_modify : frame.

Lemma attributes_kept_set_left a l : stable attributes_kept (set_left a l).
Proof. unfold set_left. frame. Qed.

Lemma attributes_kept_set_right a l : stable attributes_kept (set_right a l).
Proof. unfold set_right. frame. Qed.

Lemma attributes_kept_BasicNode_init v c : stable attributes_kept (BasicNode_init v c).
Proof.
  intros s. unfold BasicNode_init, adjudging, bind. destruct v; repeat split.
Qed.

Lemma hang_cases (set_child : M unit) new s o s1 :
  stable attributes_kept set_child ->
  (set_child ;; incr_length ;; ret (Some new)) s = (o, s1) ->
  warned s1 = warned s /\ root s1 = root s /\
  ((_length s1 = _length s /\ forall a : option addr, o <> Ok a)
   \/ (_length s1 = (_length s + 1)%Z /\ o = Ok (Some new))).
Proof.
  intros Hs H.
  apply bind_inv in H as [([] & sa & E & H)|(o1 & E & Hf & Hn)].
  - apply (stable_result _ _ _ _ _ Hs) in E as (W & R & L).
    injection H as <- <-. simpl. repeat split; auto. right. split; [lia | reflexivity].
  - apply (stable_result _ _ _ _ _ Hs) in E as (W & R & L).
    repeat split; auto.
Qed.

(** How [_insert_node] can end: leaving the state as it was, without
    returning; returning an existing node after a warning and nothing
    else; or after hanging the new node, with the count incremented if
    and only if it returns it. *)
Lemma insert_node_cases fuel : forall start new s o s1,
  _insert_node fuel start (Some new) s = (o, s1) ->
  (s1 = s /\ forall a, o <> Ok a)
  \/ (exists x v, o = Ok (Some x) /\ s1 = add_warning v s)
  \/ (warned s1 = warned s /\ root s1 = root s /\
      ((_length s1 = _length s /\ forall a, o <> Ok a)
       \/ (_length s1 = (_length s + 1)%Z /\ o = Ok (Some new)))).
Proof.
  induction fuel as [|fuel IH]; intros start new s o s1 H; simpl in H.
  { injection H as <- <-. left. split; [reflexivity | discriminate]. }
  destruct start as [start|].
  2:{ injection H as <- <-. left. split; [reflexivity | discriminate]. }
  read_in H E ltac:(fun Hn => left; split; [reflexivity | exact Hn]).
  read_in H E ltac:(fun Hn => left; split; [reflexivity | exact Hn]).
  destruct (py_eq _ _).
  { unfold bind in H.
    match type of H with context [warn ?v s] =>
      destruct (warn_result v s) as [(_ & Ew)|(_ & Ew)]; rewrite Ew in H
    end; injection H as <- <-;
      [right; left; eauto | left; split; [reflexivity | discriminate]]. }
  read_in H E ltac:(fun Hn => left; split; [reflexivity | exact Hn]).
  read_in H E ltac:(fun Hn => left; split; [reflexivity | exact Hn]).
  match type of H with (if ?b then _ else _) _ = _ => destruct b end.
  - read_in H E ltac:(fun Hn => left; split; [reflexivity | exact Hn]).
    match type of H with (match ?l with _ => _ end) _ = _ => destruct l end.
    + exact (IH _ _ _ _ _ H).
    + right. right. exact (hang_cases _ _ _ _ _ (attributes_kept_set_left _ _) H).
  - read_in H E ltac:(fun Hn => left; split; [reflexivity | exact Hn]).
    match type of H with (match ?l with _ => _ end) _ = _ => destruct l end.
    + exact (IH _ _ _ _ _ H).
    + right. right. exact (hang_cases _ _ _ _ _ (attributes_kept_set_right _ _) H).
Qed.

Lemma insert__cases fuel v s o s1 :
  _insert fuel v s = (o, s1) ->
  root s1 = root s /\
  ((_length s1 = _length s /\ warned s1 = warned s /\ forall a, o <> Ok a)
   \/ (_length s1 = _length s /\ (exists w, warned s1 = warned s ++ [w])%list /\
       (heap s1 = heap s \/ exists n, heap s1 = heap s ++ [n])%list)
   \/ (_length s1 = (_length s + 1)%Z /\ warned s1 = warned s)).
Proof.
  unfold _insert. intros H.
  read_in H E ltac:(fun Hn => split; [reflexivity | left; repeat split; exact Hn]).
  assert (forall new s0,
            attributes_kept s s0 ->
            (heap s0 = heap s \/ exists n, heap s0 = heap s ++ [n])%list ->
            (r <- get_root ;; _insert_node fuel r (Some new)) s0 = (o, s1) ->
            root s1 = root s /\
            ((_length s1 = _length s /\ warned s1 = warned s /\ forall a, o <> Ok a)
             \/ (_length s1 = _length s /\
                 (exists w, warned s1 = warned s ++ [w])%list /\
                 (heap s1 = heap s \/ exists n, heap s1 = heap s ++ [n])%list)
             \/ (_length s1 = (_length s + 1)%Z /\ warned s1 = warned s))) as Hnode.
  { intros new s0 (W & R & L) Hh H0.
    change (_insert_node fuel (root s0) (Some new) s0 = (o, s1)) in H0.
    apply insert_node_cases in H0
      as [(-> & Hn)|[(? & w & -> & ->)|(W1 & R1 & [(L1 & Hn)|(L1 & ->)])]].
    - split; [exact R|]. left. auto.
    - split; [exact R|]. right. left. simpl.
      split; [exact L|]. split; [exists w; now rewrite W | exact Hh].
    - split; [congruence|]. left. repeat split; congruence.
    - split; [congruence|]. right. right. split; congruence. }
  assert ((r <- get_root ;; _insert_numeric fuel r v) s = (o, s1) ->
            root s1 = root s /\
            ((_length s1 = _length s /\ warned s1 = warned s /\ forall a, o <> Ok a)
             \/ (_length s1 = _length s /\
                 (exists w, warned s1 = warned s ++ [w])%list /\
                 (heap s1 = heap s \/ exists n, heap s1 = heap s ++ [n])%list)
             \/ (_length s1 = (_length s + 1)%Z /\ warned s1 = warned s))) as Hnum.
  { intros H0.
    change (_insert_numeric fuel (root s) v s = (o, s1)) in H0.
    unfold _insert_numeric in H0.
    read_in H0 E ltac:(fun Hn => split; [reflexivity | left; repeat split; exact Hn]).
    read_in H0 E ltac:(fun Hn => split; [reflexivity | left; repeat split; exact Hn]).
    apply bind_inv in H0 as [(new & sa & E & H0)|(o1 & E & Hf & Hn)].
    - apply BasicNode_init_Ok in E. subst sa.
      refine (Hnode new (set_heap _ s) _ _ H0);
        [repeat split | right; eexists; reflexivity].
    - pose proof (stable_result _ _ _ _ _ (attributes_kept_BasicNode_init _ _) E)
        as (W & R & L).
      split; [exact R|]. left. auto. }
  destruct v; try (exact (Hnum H)).
  refine (Hnode _ s _ _ H); [repeat split | now left].
Qed.

#[local] Instance repainted_preorder : PreOrder repainted.
Proof.
  split.
  - intros s. repeat split.
  - intros s1 s2 s3 (?&?&?) (?&?&?). repeat split; congruence.
Qed.

Lemma repainted_set_color a c : stable repainted (set_color a c).
Proof.
  intros s. destruct (recoloured_set_color a c s) as (_ & L & W & H).
  repeat split; assumption.
Qed.

Lemma repainted_put_root r : stable repainted (put_root r).
Proof. intros s. repeat split. Qed.

Lemma repainted_recolor fuel x : stable repainted (_recolor fuel x).
Proof.
  intros s. destruct (recoloured_recolor fuel x s) as (_ & L & W & H).
  repeat split; assumption.
Qed.

#[local] Hint Resolve repainted_set_color repainted_put_root repainted_recolor : frame.

Lemma repainted_insert_tail fuel new_node :
  stable repainted
    (r <- _recolor fuel new_node ;;
     put_root r ;;
     r <- get_root ;;
     on r (fun r => set_color r BLACK)).
Proof. frame. Qed.

Lemma repainted_lookup s s' a n :
  repainted s s' -> heap s !! a = Some n ->
  exists n', heap s' !! a = Some n' /\ links n' = links n /\ _data n' = _data n.
Proof.
  intros (_ & _ & H) Hn.
  assert ((with_color BLACK <$> heap s') !! a = Some (with_color BLACK n)) as H'.
  { change (fmap (M:=list) (with_color BLACK)) with (map (with_color BLACK)).
    rewrite H. change (map (with_color BLACK)) with (fmap (M:=list) (with_color BLACK)).
    rewrite list_lookup_fmap, Hn. reflexivity. }
  rewrite list_lookup_fmap in H'.
  destruct (heap s' !! a) as [n'|]; [|discriminate].
  exists n'. split; [reflexivity|]. injection H' as Hl Hr Hd Hp.
  unfold links. split; congruence.
Qed.

(** What the first insertion does, for every object. *)
Lemma insert_into_empty fuel v s :
  root s = None ->
  insert fuel v s =
    if is_None v then (Raise ValueError, s)
    else if isinstance_HouseOfHades v then (Raise TypeError, s)
    else (Ok tt,
          mkState (heap s ++ [mkNode BLACK None None v None])
                  (Some (List.length (heap s))) (_length s + 1) (warned s)).
Proof.
  intros Hr.
  destruct v; unfold insert, is_empty, get_root, BasicNode_init, adjudging, bind;
    simpl; rewrite ?Hr; simpl; try reflexivity;
    unfold set_color, modify; simpl; rewrite lookup_fresh; simpl;
    unfold incr_length, set_length, set_heap; simpl;
    rewrite insert_app_r_alt, Nat.sub_diag by lia; reflexivity.
Qed.

Lemma insert_on_tree fuel v s r :
  root s = Some r -> is_None v = false ->
  insert fuel v s =
    (new_node <- _insert fuel v ;;
     r <- _recolor fuel new_node ;;
     put_root r ;;
     r <- get_root ;;
     on r (fun r => set_color r BLACK)) s.
Proof.
  intros Hr Hv. unfold insert. rewrite Hv.
  unfold is_empty, get_root, bind at 1 2. simpl. rewrite Hr. reflexivity.
Qed.

(** X2: a call of [insert], however it ends, leaves [_length] as it was
    or one higher; it is one higher only if no warning was emitted. *)
Theorem insert_counts_at_most_one fuel v s :
  let s' := snd (insert fuel v s) in
  (_length s' = _length s \/
   (_length s' = (_length s + 1)%Z /\ warned s' = warned s)).
Proof.
  simpl. destruct (root s) as [r|] eqn:Hr.
  - destruct (is_None v) eqn:Hv.
    { unfold insert. rewrite Hv. now left. }
    rewrite (insert_on_tree _ _ _ _ Hr Hv), bind_snd.
    destruct (_insert fuel v s) as [o1 s1] eqn:E1.
    apply insert__cases in E1 as (R1 & [(L1 & W1 & _)|[(L1 & _)|(L1 & W1)]]).
    + destruct o1 as [new_node| | |]; try now left.
      destruct (repainted_insert_tail fuel new_node s1) as (L & _). left. congruence.
    + destruct o1 as [new_node| | |]; try now left.
      destruct (repainted_insert_tail fuel new_node s1) as (L & _). left. congruence.
    + destruct o1 as [new_node| | |]; try (right; now split).
      destruct (repainted_insert_tail fuel new_node s1) as (L & W & _).
      right. split; congruence.
  - rewrite (insert_into_empty _ _ _ Hr).
    destruct (is_None v); [now left|].
    destruct (isinstance_HouseOfHades v); [now left|].
    right. split; reflexivity.
Qed.

#[local] Instance data_kept_preorder : PreOrder data_kept.
Proof.
  split.
  - intros s a n H. eauto.
  - intros s1 s2 s3 H1 H2 a n H.
    destruct (H1 a n H) as (n2 & E2 & D2).
    destruct (H2 a n2 E2) as (n3 & E3 & D3).
    exists n3. split; [exact E3 | congruence].
Qed.

Lemma data_kept_modify a f : same_data f -> stable data_kept (modify a f).
Proof.
  intros Hf s b n Hb. destruct (modify a f s) as [o s'] eqn:E. simpl.
  apply modify_result in E as [(m & Hm & _ & ->)|(_ & _ & ->)]; [|eauto].
  simpl. destruct (decide (a = b)) as [->|Hne].
  - rewrite list_lookup_insert_eq by exact (lookup_lt_Some _ _ _ Hb).
    exists (f m). split; [reflexivity|]. rewrite Hf. congruence.
  - rewrite list_lookup_insert_ne by exact Hne. eauto.
Qed.

Lemma data_kept_set_color a c : stable data_kept (set_color a c).
Proof. apply data_kept_modify. now intros n. Qed.
Lemma data_kept_with_left a l : stable data_kept (modify a (with_left l)).
Proof. apply data_kept_modify. now intros n. Qed.
Lemma data_kept_with_right a r : stable data_kept (modify a (with_right r)).
Proof. apply data_kept_modify. now intros n. Qed.
Lemma data_kept_with_parent a p : stable data_kept (modify a (with_parent p)).
Proof. apply data_kept_modify. now intros n. Qed.
Lemma data_kept_incr_length : stable data_kept incr_length.
Proof. intros s a n H. eauto. Qed.
Lemma data_kept_warn v : stable data_kept (warn v).
Proof.
  intros s a n H. destruct (warn_result v s) as [(_ & ->)|(_ & ->)]; eauto.
Qed.
Lemma data_kept_put_root r : stable data_kept (put_root r).
Proof. intros s a n H. eauto. Qed.
Lemma data_kept_alloc n : stable data_kept (alloc n).
Proof.
  intros s a m H. exists m. split; [|reflexivity].
  simpl. now apply lookup_app_l_Some.
Qed.

#[local] Hint Resolve data_kept_set_color data_kept_with_left data_kept_with_right
  data_kept_with_parent data_kept_incr_length data_kept_warn data_kept_put_root
  data_kept_alloc : frame.

Lemma data_kept_BasicNode_init v c : stable data_kept (BasicNode_init v c).
Proof. unfold BasicNode_init. frame. Qed.
#[local] Hint Resolve data_kept_BasicNode_init : frame.

Lemma data_kept_insert_ fuel v : stable data_kept (_insert fuel v).
Proof. apply stable_insert_; try typeclasses eauto; auto with frame. Qed.

Lemma data_kept_recolor fuel x : stable data_kept (_recolor fuel x).
Proof. apply stable_recolor; try typeclasses eauto; auto with frame. Qed.

#[local] Hint Resolve data_kept_insert_ data_kept_recolor : frame.

(** X3: [insert] never drops a node and never changes what a node
    stores: every object of the store is still there after the call,
    however it ends, with the value it had. *)
Theorem insert_keeps_every_stored_value fuel v s a n :
  heap s !! a = Some n ->
  exists n', heap (snd (insert fuel v s)) !! a = Some n' /\ _data n' = _data n.
Proof.
  revert a n. change (data_kept s (snd (insert fuel v s))).
  revert s. change (stable data_kept (insert fuel v)).
  unfold insert. frame.
Qed.

Lemma insert_keeps_every_stored_value_witness :
  let s := tree_of 5 [1; 2]%Z in
  heap s !! 1 = Some (mkNode RED None None (VInt 2) (Some 0)) /\
  exists n', heap (snd (insert 5 (VInt 3) s)) !! 1 = Some n' /\ _data n' = VInt 2.
Proof.
  intros s.
  assert (heap s !! 1 = Some (mkNode RED None None (VInt 2) (Some 0))) as H
    by reflexivity.
  split; [exact H|].
  exact (insert_keeps_every_stored_value 5 (VInt 3) s 1 _ H).
Defined.

(** X4: a call of [insert] that emits a warning (the value is already
    there) emits one warning, leaves [_length] as it was, and leaves
    every node with the links and the value it had; only colours can
    differ. *)
Theorem insert_with_warning_keeps_count_and_links fuel v s :
  let s' := snd (insert fuel v s) in
  warned s' <> warned s ->
  (exists w, warned s' = warned s ++ [w])%list /\
  _length s' = _length s /\
  forall a n, heap s !! a = Some n ->
    exists n', heap s' !! a = Some n' /\ links n' = links n /\ _data n' = _data n.
Proof.
  simpl. destruct (root s) as [r|] eqn:Hr.
  - destruct (is_None v) eqn:Hv.
    { unfold insert. rewrite Hv. simpl. contradiction. }
    rewrite (insert_on_tree _ _ _ _ Hr Hv), bind_snd.
    destruct (_insert fuel v s) as [o1 s1] eqn:E1.
    apply insert__cases in E1 as (R1 & [(L1 & W1 & _)|[(L1 & (w & W1) & Hh)|(L1 & W1)]]).
    + destruct o1 as [new_node| | |]; try contradiction.
      destruct (repainted_insert_tail fuel new_node s1) as (_ & W & _).
      intros H. destruct H. congruence.
    + assert (forall a n, heap s !! a = Some n -> heap s1 !! a = Some n) as Hs1.
      { intros a n Hn. destruct Hh as [->|(m & ->)]; [exact Hn|].
        now apply lookup_app_l_Some. }
      destruct o1 as [new_node| | |];
        try (intros _; split; [eauto|]; split; [exact L1|]; intros a n Hn; eauto).
      pose proof (repainted_insert_tail fuel new_node s1) as Hrep.
      destruct Hrep as (L & W & Hm) eqn:Erep. clear Erep.
      intros _. split; [exists w; congruence|]. split; [congruence|].
      intros a n Hn.
      exact (repainted_lookup _ _ _ _ (repainted_insert_tail fuel new_node s1)
               (Hs1 a n Hn)).
    + destruct o1 as [new_node| | |]; try contradiction.
      destruct (repainted_insert_tail fuel new_node s1) as (_ & W & _).
      intros H. destruct H. congruence.
  - rewrite (insert_into_empty _ _ _ Hr).
    destruct (is_None v); [contradiction|].
    destruct (isinstance_HouseOfHades v); contradiction.
Qed.

Lemma insert_with_warning_keeps_count_and_links_witness :
  let s := tree_of 5 [2]%Z in
  let s' := snd (insert 5 (VInt 2) s) in
  warned s' <> warned s /\
  (exists w, warned s' = warned s ++ [w])%list /\
  _length s' = _length s /\
  forall a n, heap s !! a = Some n ->
    exists n', heap s' !! a = Some n' /\ links n' = links n /\ _data n' = _data n.
Proof.
  intros s s'.
  assert (warned s' <> warned s) as H by (vm_compute; discriminate).
  split; [exact H|].
  exact (insert_with_warning_keeps_count_and_links 5 (VInt 2) s H).
Defined.

(** X5: the recolouring procedure changes colours and nothing else:
    however it ends, the root attribute, [_length] and the warnings are
    as before, and every node has the links and the value it had. *)
Theorem recolor_changes_colours_only fuel x s :
  let s' := snd (_recolor fuel x s) in
  root s' = root s /\ _length s' = _length s /\ warned s' = warned s /\
  List.length (heap s') = List.length (heap s) /\
  forall a n, heap s !! a = Some n ->
    exists n', heap s' !! a = Some n' /\ links n' = links n /\ _data n' = _data n.
Proof.
  simpl. pose proof (recoloured_recolor fuel x s) as H.
  destruct H as (R & L & W & Hm) eqn:E. clear E.
  repeat split; try assumption.
  - apply (f_equal (@List.length _)) in Hm. now rewrite !length_map in Hm.
  - intros a n Hn. exact (recoloured_lookup _ _ _ _ H Hn).
Qed.

(** ** Trees in the store *)

Lemma rep_NoDup h par o t al : rep h par o t al -> NoDup al.
Proof. destruct 1; [constructor | assumption]. Qed.

Lemma rep_size h par o t al : rep h par o t al -> List.length al = size t.
Proof.
  induction 1; simpl; [reflexivity|].
  rewrite length_app. congruence.
Qed.

Lemma rep_lookup h par o t al a :
  rep h par o t al -> a ∈ al -> exists n, h !! a = Some n.
Proof.
  induction 1; intros Ha.
  - now apply elem_of_nil in Ha.
  - apply elem_of_cons in Ha as [->|Ha]; [eauto|].
    apply elem_of_app in Ha as [Ha|Ha]; auto.
Qed.

(** A tree stays the tree it is when each of its nodes keeps its links
    and its value. *)
Lemma rep_transport h h' par o t al :
  rep h par o t al ->
  (forall a n, a ∈ al -> h !! a = Some n ->
     exists n', h' !! a = Some n' /\ links n' = links n /\ _data n' = _data n) ->
  rep h' par o t al.
Proof.
  induction 1 as [|par a n l r al ar Hn Hp Hl IHl Hr IHr Hd]; intros Hk.
  - constructor.
  - destruct (Hk a n ltac:(left) Hn) as (n' & Hn' & Hlk & Hdt).
    unfold links in Hlk. injection Hlk as El Er Ep.
    rewrite <- Hdt.
    apply (rep_fork h' par a n'); try assumption.
    + congruence.
    + rewrite El. apply IHl. intros b m Hb. apply Hk. right.
      apply elem_of_app. now left.
    + rewrite Er. apply IHr. intros b m Hb. apply Hk. right.
      apply elem_of_app. now right.
Qed.

(** Every node of a tree is its top or has its parent in the tree. *)
Lemma rep_parent h par o t al a n :
  rep h par o t al -> a ∈ al -> h !! a = Some n ->
  (o = Some a /\ _parent n = par) \/ (exists p, _parent n = Some p /\ p ∈ al).
Proof.
  induction 1 as [|par a0 n0 l r al ar Hn Hp Hl IHl Hr IHr Hd]; intros Ha Hm.
  - now apply elem_of_nil in Ha.
  - apply elem_of_cons in Ha as [->|Ha].
    { left. split; [reflexivity | congruence]. }
    right. apply elem_of_app in Ha as [Ha|Ha].
    + destruct (IHl Ha Hm) as [(_ & Hpar)|(p & Hpar & Hin)].
      * exists a0. split; [exact Hpar | left].
      * exists p. split; [exact Hpar|]. right. apply elem_of_app. now left.
    + destruct (IHr Ha Hm) as [(_ & Hpar)|(p & Hpar & Hin)].
      * exists a0. split; [exact Hpar | left].
      * exists p. split; [exact Hpar|]. right. apply elem_of_app. now right.
Qed.

Lemma rep_shape h par o t al :
  rep h par o t al ->
  forall fuel, height t < fuel -> uncoloured (shape_of fuel h o) = t.
Proof.
  induction 1 as [|par a n l r al ar Hn Hp Hl IHl Hr IHr Hd]; intros fuel Hf.
  - now destruct fuel.
  - destruct fuel as [|fuel]; [simpl in Hf; lia|]. simpl in *. rewrite Hn. simpl.
    rewrite IHl, IHr by lia. reflexivity.
Qed.

Lemma NoDup_bounded (l : list nat) n :
  NoDup l -> (forall x, x ∈ l -> x < n) -> List.length l <= n.
Proof.
  intros Hd Hb. rewrite <- (length_seq n 0).
  apply submseteq_length, NoDup_submseteq; [exact Hd|].
  intros x Hx. apply elem_of_seq. specialize (Hb x Hx). lia.
Qed.

Lemma rep_fits h par o t al : rep h par o t al -> size t <= List.length h.
Proof.
  intros H. rewrite <- (rep_size _ _ _ _ _ H).
  apply NoDup_bounded; [exact (rep_NoDup _ _ _ _ _ H)|].
  intros a Ha. destruct (rep_lookup _ _ _ _ _ _ H Ha) as (n & Hn).
  exact (lookup_lt_Some _ _ _ Hn).
Qed.

Lemma height_le_size t : height t <= size t.
Proof. induction t; simpl; lia. Qed.

Lemma rep_tree_shape s t al :
  rep (heap s) None (root s) t al -> uncoloured (tree_shape s) = t.
Proof.
  intros H. apply (rep_shape _ _ _ _ _ H).
  pose proof (rep_fits _ _ _ _ _ H). pose proof (height_le_size t). lia.
Qed.

Lemma rep_leaf_node h par new nn :
  h !! new = Some nn -> _parent nn = par -> _left nn = None -> _right nn = None ->
  rep h par (Some new) (Fork Empty (_data nn) Empty) [new].
Proof.
  intros Hn Hp Hl Hr.
  apply (rep_fork h par new nn Empty Empty [] []); try assumption.
  - rewrite Hl. constructor.
  - rewrite Hr. constructor.
  - apply NoDup_singleton.
Qed.

(** Hanging a fresh node on the empty left of the top of a tree. *)
Lemma hang_left_rep s par start n r ar new nn :
  heap s !! start = Some n -> _parent n = par -> _left n = None ->
  rep (heap s) (Some start) (_right n) r ar -> NoDup (start :: ar) ->
  heap s !! new = Some nn -> _left nn = None -> _right nn = None ->
  new ∉ start :: ar ->
  exists h',
    (set_left start (Some new) ;; incr_length ;; ret (Some new)) s
      = (Ok (Some new), mkState h' (root s) (_length s + 1) (warned s)) /\
    List.length h' = List.length (heap s) /\
    (forall b, b <> start -> b <> new -> h' !! b = heap s !! b) /\
    rep h' par (Some start) (Fork (Fork Empty (_data nn) Empty) (_data n) r)
        (start :: [new] ++ ar).
Proof.
  intros Hn Hp Hl Hr Hd Hnn Hnl Hnr Hnew.
  assert (start <> new) as Hne by (intros ->; apply Hnew; left).
  assert (new ∉ ar) as Hnar by (intros H; apply Hnew; now right).
  assert (start ∉ ar) as Hsar by now apply NoDup_cons in Hd.
  pose proof (lookup_lt_Some _ _ _ Hn) as Ls.
  pose proof (lookup_lt_Some _ _ _ Hnn) as Ln.
  exists (<[new := with_parent (Some start) nn]>
            (<[start := with_left (Some new) n]> (heap s))).
  split; [|split; [now rewrite !length_insert|split]].
  - assert (set_left start (Some new) s =
              (Ok tt, set_heap (<[new := with_parent (Some start) nn]>
                                  (<[start := with_left (Some new) n]> (heap s))) s))
      as E.
    { unfold set_left. rewrite (bind_step _ _ _ _ _ (modify_Some _ _ _ _ Hn)).
      erewrite modify_Some
        by (simpl; rewrite list_lookup_insert_ne by exact Hne; exact Hnn).
      reflexivity. }
    rewrite (bind_step _ _ _ _ _ E). reflexivity.
  - intros b Hb1 Hb2. now rewrite !list_lookup_insert_ne by congruence.
  - assert (forall a m, a ∈ ar -> heap s !! a = Some m ->
              exists m', <[new := with_parent (Some start) nn]>
                           (<[start := with_left (Some new) n]> (heap s)) !! a
                         = Some m' /\ links m' = links m /\ _data m' = _data m)
      as Hframe.
    { intros a m Ha Hm. exists m.
      rewrite !list_lookup_insert_ne by (intros ->; contradiction). auto. }
    apply (rep_fork _ par start (with_left (Some new) n)
                    (Fork Empty (_data nn) Empty) r [new] ar).
    + rewrite list_lookup_insert_ne by congruence.
      apply list_lookup_insert_eq. exact Ls.
    + exact Hp.
    + simpl. apply (rep_leaf_node _ _ _ (with_parent (Some start) nn));
        try assumption; try reflexivity.
      apply list_lookup_insert_eq. now rewrite length_insert.
    + simpl. exact (rep_transport _ _ _ _ _ _ Hr Hframe).
    + simpl. apply NoDup_cons. split.
      * intros H. apply elem_of_cons in H as [H|H]; [congruence | contradiction].
      * apply NoDup_cons. split; [exact Hnar|]. now apply NoDup_cons in Hd.
Qed.

(** Hanging a fresh node on the empty right of the top of a tree. *)
Lemma hang_right_rep s par start n l al new nn :
  heap s !! start = Some n -> _parent n = par -> _right n = None ->
  rep (heap s) (Some start) (_left n) l al -> NoDup (start :: al) ->
  heap s !! new = Some nn -> _left nn = None -> _right nn = None ->
  new ∉ start :: al ->
  exists h',
    (set_right start (Some new) ;; incr_length ;; ret (Some new)) s
      = (Ok (Some new), mkState h' (root s) (_length s + 1) (warned s)) /\
    List.length h' = List.length (heap s) /\
    (forall b, b <> start -> b <> new -> h' !! b = heap s !! b) /\
    rep h' par (Some start) (Fork l (_data n) (Fork Empty (_data nn) Empty))
        (start :: al ++ [new]).
Proof.
  intros Hn Hp Hl Hr Hd Hnn Hnl Hnr Hnew.
  assert (start <> new) as Hne by (intros ->; apply Hnew; left).
  assert (new ∉ al) as Hnar by (intros H; apply Hnew; now right).
  assert (start ∉ al) as Hsar by now apply NoDup_cons in Hd.
  pose proof (lookup_lt_Some _ _ _ Hn) as Ls.
  pose proof (lookup_lt_Some _ _ _ Hnn) as Ln.
  exists (<[new := with_parent (Some start) nn]>
            (<[start := with_right (Some new) n]> (heap s))).
  split; [|split; [now rewrite !length_insert|split]].
  - assert (set_right start (Some new) s =
              (Ok tt, set_heap (<[new := with_parent (Some start) nn]>
                                  (<[start := with_right (Some new) n]> (heap s))) s))
      as E.
    { unfold set_right. rewrite (bind_step _ _ _ _ _ (modify_Some _ _ _ _ Hn)).
      erewrite modify_Some
        by (simpl; rewrite list_lookup_insert_ne by exact Hne; exact Hnn).
      reflexivity. }
    rewrite (bind_step _ _ _ _ _ E). reflexivity.
  - intros b Hb1 Hb2. now rewrite !list_lookup_insert_ne by congruence.
  - assert (forall a m, a ∈ al -> heap s !! a = Some m ->
              exists m', <[new := with_parent (Some start) nn]>
                           (<[start := with_right (Some new) n]> (heap s)) !! a
                         = Some m' /\ links m' = links m /\ _data m' = _data m)
      as Hframe.
    { intros a m Ha Hm. exists m.
      rewrite !list_lookup_insert_ne by (intros ->; contradiction). auto. }
    apply (rep_fork _ par start (with_right (Some new) n)
                    l (Fork Empty (_data nn) Empty) al [new]).
    + rewrite list_lookup_insert_ne by congruence.
      apply list_lookup_insert_eq. exact Ls.
    + exact Hp.
    + simpl. exact (rep_transport _ _ _ _ _ _ Hr Hframe).
    + simpl. apply (rep_leaf_node _ _ _ (with_parent (Some start) nn));
        try assumption; try reflexivity.
      apply list_lookup_insert_eq. now rewrite length_insert.
    + apply NoDup_cons. split.
      * intros H. apply elem_of_app in H as [H|H]; [contradiction|].
        apply list_elem_of_singleton in H. congruence.
      * apply NoDup_app. split; [now apply NoDup_cons in Hd|].
        split; [|apply NoDup_singleton].
        intros x Hx Hx'. apply list_elem_of_singleton in Hx'. congruence.
Qed.

Lemma get_left_Some s a n : heap s !! a = Some n -> get_left a s = (Ok (_left n), s).
Proof. intros H. unfold get_left. now rewrite (bind_step _ _ _ _ _ (load_Some _ _ _ H)). Qed.

Lemma get_right_Some s a n : heap s !! a = Some n -> get_right a s = (Ok (_right n), s).
Proof. intros H. unfold get_right. now rewrite (bind_step _ _ _ _ _ (load_Some _ _ _ H)). Qed.

Lemma get_parent_Some s a n : heap s !! a = Some n -> get_parent a s = (Ok (_parent n), s).
Proof. intros H. unfold get_parent. now rewrite (bind_step _ _ _ _ _ (load_Some _ _ _ H)). Qed.

Lemma bind_ret {A B} (a : A) (k : A -> M B) s : bind (ret a) k s = k a s.
Proof. reflexivity. Qed.

(** The descent of [_insert_node] in a tree of the store, with a fresh
    node to hang: it runs out of budget only if the budget is not above
    the height, and then leaves the state as it was; otherwise it
    returns a node of the tree, raises the TypeError of a comparison or
    raises the ValueError of a warning that cannot be written, and the
    tree has become the one [bst_insert] gives, the nodes outside it
    being untouched. *)
Lemma insert_node_rep fuel : forall s par start t al new nn o s1,
  rep (heap s) par (Some start) t al ->
  heap s !! new = Some nn -> _left nn = None -> _right nn = None ->
  new ∉ al ->
  _insert_node fuel (Some start) (Some new) s = (o, s1) ->
  (o = Fuel /\ s1 = s /\ fuel <= height t)
  \/ (((exists x, o = Ok (Some x)) \/ o = Raise TypeError \/
       (o = Raise ValueError /\ formats (_data nn) = false)) /\
      root s1 = root s /\
      List.length (heap s1) = List.length (heap s) /\
      (forall b, b ∉ al -> b <> new -> heap s1 !! b = heap s !! b) /\
      exists al',
        rep (heap s1) par (Some start) (bst_insert (_data nn) t) al' /\
        (forall b, b ∈ al -> b ∈ al') /\
        (forall b, b ∈ al' -> b = new \/ b ∈ al) /\
        (forall x, o = Ok (Some x) -> x ∈ al') /\
        _length s1 =
          (_length s + Z.of_nat (List.length al') - Z.of_nat (List.length al))%Z).
Proof.
  induction fuel as [|fuel IH];
    intros s par start t al new nn o s1 Hrep Hnn Hnl Hnr Hnew H; simpl in H.
  { injection H as <- <-. left. repeat split. lia. }
  inversion Hrep as [|par' a n l r al_l al_r Hn Hp Hl Hr Hd]; subst.
  rewrite (bind_step _ _ _ _ _ (get_data_Some _ _ _ Hnn)) in H.
  rewrite (bind_step _ _ _ _ _ (get_data_Some _ _ _ Hn)) in H.
  assert (forall o' s',
            (o' = Raise TypeError \/
             (o' = Raise ValueError /\ formats (_data nn) = false) \/
             exists x, o' = Ok (Some x) /\ x ∈ start :: al_l ++ al_r) ->
            heap s' = heap s -> root s' = root s -> _length s' = _length s ->
            bst_insert (_data nn) (Fork l (_data n) r) = Fork l (_data n) r ->
            (o' = Fuel /\ s' = s /\ S fuel <= height (Fork l (_data n) r))
            \/ (((exists x, o' = Ok (Some x)) \/ o' = Raise TypeError \/
                 (o' = Raise ValueError /\ formats (_data nn) = false)) /\
                root s' = root s /\
                List.length (heap s') = List.length (heap s) /\
                (forall b, b ∉ start :: al_l ++ al_r -> b <> new ->
                           heap s' !! b = heap s !! b) /\
                exists al',
                  rep (heap s') (_parent n) (Some start)
                      (bst_insert (_data nn) (Fork l (_data n) r)) al' /\
                  (forall b, b ∈ start :: al_l ++ al_r -> b ∈ al') /\
                  (forall b, b ∈ al' -> b = new \/ b ∈ start :: al_l ++ al_r) /\
                  (forall x, o' = Ok (Some x) -> x ∈ al') /\
                  _length s' =
                    (_length s + Z.of_nat (List.length al')
                     - Z.of_nat (List.length (start :: al_l ++ al_r)))%Z))
    as Hsame.
  { intros o' s' Ho Hh Hr' Hl' Hb. right.
    split; [destruct Ho as [->|[(-> & ?)|(x & -> & _)]]; eauto|].
    split; [exact Hr'|]. split; [now rewrite Hh|].
    split; [intros; now rewrite Hh|].
    exists (start :: al_l ++ al_r). rewrite Hb, Hh.
    split; [exact Hrep|]. split; [auto|]. split; [auto|].
    split; [|lia].
    intros x Hx. destruct Ho as [->|[(-> & ?)|(y & -> & Hy)]]; try discriminate.
    now injection Hx as <-. }
  destruct (py_eq (_data nn) (_data n)) eqn:Eeq.
  { unfold bind in H.
    destruct (warn_result (_data nn) s) as [(_ & Ew)|(Hfm & Ew)]; rewrite Ew in H;
      injection H as <- <-; apply Hsame; try reflexivity.
    - right. right. exists start. split; [reflexivity | left].
    - simpl. now rewrite Eeq.
    - right. left. split; [reflexivity | exact Hfm].
    - simpl. now rewrite Eeq. }
  rewrite (bind_step _ _ _ _ _ (get_data_Some _ _ _ Hn)) in H.
  unfold compare in H.
  assert (start <> new) as Hne by (intros ->; apply Hnew; left).
  assert (new ∉ al_l) as Hnew_l.
  { intros Hx. apply Hnew. right. apply elem_of_app. now left. }
  assert (new ∉ al_r) as Hnew_r.
  { intros Hx. apply Hnew. right. apply elem_of_app. now right. }
  apply NoDup_cons in Hd as (Hs_out & Hd).
  apply NoDup_app in Hd as (Hd_l & Hdisj & Hd_r).
  assert (start ∉ al_l) as Hs_l.
  { intros Hx. apply Hs_out, elem_of_app. now left. }
  assert (start ∉ al_r) as Hs_r.
  { intros Hx. apply Hs_out, elem_of_app. now right. }
  destruct (py_order Lt (_data nn) (_data n)) as [[|]|] eqn:Eord.
  - rewrite bind_ret in H.
    rewrite (bind_step _ _ _ _ _ (get_left_Some _ _ _ Hn)) in H.
    destruct (_left n) as [c|] eqn:El.
    + destruct (IH _ _ _ _ _ _ _ _ _ Hl Hnn Hnl Hnr Hnew_l H)
        as [(-> & -> & Hf)|(Ho & R1 & Len1 & Hfr & al' & Hrep' & Hin & Hout & Hx & L1)].
      { left. repeat split. simpl. lia. }
      right. split; [exact Ho|]. split; [exact R1|]. split; [exact Len1|].
      split.
      { intros b Hb Hbn. apply Hfr; [|exact Hbn].
        intros Hx'. apply Hb. right. apply elem_of_app. now left. }
      assert (heap s1 !! start = Some n) as Hn1 by (rewrite Hfr; assumption).
      exists (start :: al' ++ al_r).
      simpl. rewrite Eeq, Eord.
      split.
      { apply (rep_fork _ _ start n); try assumption; try reflexivity.
        - rewrite El. exact Hrep'.
        - apply (rep_transport _ _ _ _ _ _ Hr). intros b m Hb Hm.
          exists m. rewrite Hfr; [auto| |].
          + intros Hx'. exact (Hdisj _ Hx' Hb).
          + intros ->. contradiction.
        - apply NoDup_cons. split.
          + intros Hx'. apply elem_of_app in Hx' as [Hx'|Hx']; [|contradiction].
            destruct (Hout _ Hx') as [->|Hx'']; [congruence | contradiction].
          + apply NoDup_app. split; [exact (rep_NoDup _ _ _ _ _ Hrep')|].
            split; [|exact Hd_r].
            intros b Hb Hb'. destruct (Hout _ Hb) as [->|Hb''];
              [contradiction | exact (Hdisj _ Hb'' Hb')]. }
      split.
      { intros b Hb. apply elem_of_cons in Hb as [->|Hb]; [left|].
        right. apply elem_of_app in Hb as [Hb|Hb]; apply elem_of_app; auto. }
      split.
      { intros b Hb. apply elem_of_cons in Hb as [->|Hb]; [right; left|].
        apply elem_of_app in Hb as [Hb|Hb].
        - destruct (Hout _ Hb) as [->|Hb']; [now left|].
          right. right. apply elem_of_app. now left.
        - right. right. apply elem_of_app. now right. }
      split.
      { intros x Ex. right. apply elem_of_app. left. now apply Hx. }
      simpl. rewrite !length_app. rewrite L1. lia.
    + inversion Hl; subst.
      destruct (hang_left_rep s (_parent n) start n r al_r new nn Hn eq_refl El)
        as (h' & E & Len' & Hfr & Hrep'); try assumption.
      { apply NoDup_cons. split; assumption. }
      rewrite E in H. injection H as <- <-.
      right. split; [left; eauto|]. split; [reflexivity|].
      split; [exact Len'|].
      split.
      { intros b Hb Hbn. simpl. apply Hfr; [|exact Hbn].
        intros ->. apply Hb. left. }
      exists (start :: [new] ++ al_r).
      simpl. rewrite Eeq, Eord.
      split; [exact Hrep'|].
      split.
      { intros b Hb. apply elem_of_cons in Hb as [->|Hb]; [left|].
        right. now right. }
      split.
      { intros b Hb. apply elem_of_cons in Hb as [->|Hb]; [right; left|].
        apply elem_of_cons in Hb as [->|Hb]; [now left|].
        right. now right. }
      split.
      { intros x Ex. injection Ex as <-. right. left. }
      simpl. lia.
  - rewrite bind_ret in H.
    rewrite (bind_step _ _ _ _ _ (get_right_Some _ _ _ Hn)) in H.
    destruct (_right n) as [c|] eqn:El.
    + destruct (IH _ _ _ _ _ _ _ _ _ Hr Hnn Hnl Hnr Hnew_r H)
        as [(-> & -> & Hf)|(Ho & R1 & Len1 & Hfr & al' & Hrep' & Hin & Hout & Hx & L1)].
      { left. repeat split. simpl. lia. }
      right. split; [exact Ho|]. split; [exact R1|]. split; [exact Len1|].
      split.
      { intros b Hb Hbn. apply Hfr; [|exact Hbn].
        intros Hx'. apply Hb. right. apply elem_of_app. now right. }
      assert (heap s1 !! start = Some n) as Hn1 by (rewrite Hfr; assumption).
      exists (start :: al_l ++ al').
      simpl. rewrite Eeq, Eord.
      split.
      { apply (rep_fork _ _ start n); try assumption; try reflexivity.
        - apply (rep_transport _ _ _ _ _ _ Hl). intros b m Hb Hm.
          exists m. rewrite Hfr; [auto| |].
          + intros Hx'. exact (Hdisj _ Hb Hx').
          + intros ->. contradiction.
        - rewrite El. exact Hrep'.
        - apply NoDup_cons. split.
          + intros Hx'. apply elem_of_app in Hx' as [Hx'|Hx']; [contradiction|].
            destruct (Hout _ Hx') as [->|Hx'']; [congruence | contradiction].
          + apply NoDup_app. split; [exact Hd_l|].
            split; [|exact (rep_NoDup _ _ _ _ _ Hrep')].
            intros b Hb Hb'. destruct (Hout _ Hb') as [->|Hb''];
              [contradiction | exact (Hdisj _ Hb Hb'')]. }
      split.
      { intros b Hb. apply elem_of_cons in Hb as [->|Hb]; [left|].
        right. apply elem_of_app in Hb as [Hb|Hb]; apply elem_of_app; auto. }
      split.
      { intros b Hb. apply elem_of_cons in Hb as [->|Hb]; [right; left|].
        apply elem_of_app in Hb as [Hb|Hb].
        - right. right. apply elem_of_app. now left.
        - destruct (Hout _ Hb) as [->|Hb']; [now left|].
          right. right. apply elem_of_app. now right. }
      split.
      { intros x Ex. right. apply elem_of_app. right. now apply Hx. }
      simpl. rewrite !length_app. rewrite L1. lia.
    + inversion Hr; subst.
      destruct (hang_right_rep s (_parent n) start n l al_l new nn Hn eq_refl El)
        as (h' & E & Len' & Hfr & Hrep'); try assumption.
      { apply NoDup_cons. split; assumption. }
      { intros Hx. apply elem_of_cons in Hx as [->|Hx]; [congruence | contradiction]. }
      rewrite E in H. injection H as <- <-.
      right. split; [left; eauto|]. split; [reflexivity|].
      split; [exact Len'|].
      split.
      { intros b Hb Hbn. simpl. apply Hfr; [|exact Hbn].
        intros ->. apply Hb. left. }
      exists (start :: al_l ++ [new]).
      simpl. rewrite Eeq, Eord.
      split; [exact Hrep'|].
      split.
      { intros b Hb. apply elem_of_cons in Hb as [->|Hb]; [left|].
        right. rewrite app_nil_r in Hb. apply elem_of_app. now left. }
      split.
      { intros b Hb. apply elem_of_cons in Hb as [->|Hb]; [right; left|].
        apply elem_of_app in Hb as [Hb|Hb].
        - right. right. rewrite app_nil_r. exact Hb.
        - apply list_elem_of_singleton in Hb. now left. }
      split.
      { intros x Ex. injection Ex as <-. right. apply elem_of_app. right. left. }
      simpl. rewrite !length_app. simpl. lia.
  - injection H as <- <-. apply Hsame; try reflexivity.
    + now left.
    + simpl. now rewrite Eeq, Eord.
Qed.


Lemma rep_recoloured s s' par o t al :
  recoloured s s' -> rep (heap s) par o t al -> rep (heap s') par o t al.
Proof.
  intros R H. apply (rep_transport _ _ _ _ _ _ H).
  intros a n _ Hn. exact (recoloured_lookup _ _ _ _ R Hn).
Qed.

Lemma rep_repainted s s' par o t al :
  repainted s s' -> rep (heap s) par o t al -> rep (heap s') par o t al.
Proof.
  intros R H. apply (rep_transport _ _ _ _ _ _ H).
  intros a n _ Hn. exact (repainted_lookup _ _ _ _ R Hn).
Qed.

(** Started at a node of a well-formed tree, the recolouring procedure
    can only return the root. *)
Lemma recolor_returns_root fuel : forall s r t al x o2 s2,
  root s = Some r -> rep (heap s) None (Some r) t al -> x ∈ al ->
  _recolor fuel (Some x) s = (Ok o2, s2) -> o2 = Some r.
Proof.
  induction fuel as [|fuel IH]; intros s r t al x o2 s2 Hroot Hrep Hx H;
    simpl in H; [discriminate|].
  destruct (rep_lookup _ _ _ _ _ _ Hrep Hx) as (nx & Hnx).
  apply bind_Ok in H as (uncle & s0 & E & H).
  apply readonly_state in E; [subst s0 | auto with ro].
  rewrite (bind_step _ _ _ _ _ (get_parent_Some _ _ _ Hnx)) in H.
  destruct (rep_parent _ _ _ _ _ _ _ Hrep Hx Hnx) as [(Etop & Hpar)|(p & Hpar & Hp)].
  { rewrite Hpar in H. injection Etop as ->. now injection H as <- _. }
  rewrite Hpar in H.
  destruct (rep_lookup _ _ _ _ _ _ Hrep Hp) as (np & Hnp).
  rewrite (bind_step _ _ _ _ _ (get_parent_Some _ _ _ Hnp)) in H.
  destruct (rep_parent _ _ _ _ _ _ _ Hrep Hp Hnp) as [(Etop & Hgp)|(g & Hgp & Hg)].
  { rewrite Hgp in H. injection Etop as ->. now injection H as <- _. }
  rewrite Hgp in H.
  apply bind_Ok in H as (pc & s0 & E & H).
  apply readonly_state in E; [subst s0 | auto with ro].
  destruct (Color_eqb pc BLACK).
  { injection H as <- _. exact Hroot. }
  apply bind_Ok in H as (red & s0 & E & H).
  apply readonly_state in E; [subst s0 | auto with ro].
  apply bind_Ok in H as (g' & s1 & E & H).
  destruct red.
  - assert (recoloured s s1) as R.
    { eapply stable_result; [|exact E]. frame. }
    assert (g' = Some g) as ->.
    { apply bind_Ok in E as (? & ? & _ & E).
      apply bind_Ok in E as (? & ? & _ & E).
      apply bind_Ok in E as (? & ? & _ & E).
      now injection E as <- _. }
    apply (IH s1 r t al g o2 s2); try assumption.
    + destruct R as (-> & _). exact Hroot.
    + exact (rep_recoloured _ _ _ _ _ _ R Hrep).
  - apply bind_Ok in E as (? & s3 & _ & E).
    apply bind_Ok in E as (gp & s4 & E & _).
    assert (__recolor_case3 (Some x) s3 = (Ok gp, s4)) as E' by exact E.
    exfalso. apply (never_ok_recolor_case3 (Some x) s3 gp). now rewrite E'.
Qed.

Lemma finish_keeps_root r s :
  let s' := snd ((put_root (Some r) ;; r0 <- get_root ;;
                  on r0 (fun r0 => set_color r0 BLACK)) s) in
  root s' = Some r /\ repainted s s'.
Proof.
  simpl. split.
  - unfold bind, put_root, get_root, set_color, modify. simpl.
    now destruct (heap s !! r).
  - apply (stable_bind repainted); [frame|]. intros []. frame.
Qed.

Lemma BasicNode_init_number v c s :
  is_numeric v = true ->
  BasicNode_init v c s =
    (Ok (List.length (heap s)), set_heap (heap s ++ [mkNode c None None v None]) s).
Proof. destruct v; try discriminate; reflexivity. Qed.

Lemma rep_alloc h n par o t al : rep h par o t al -> rep (h ++ [n]) par o t al.
Proof.
  intros H. apply (rep_transport _ _ _ _ _ _ H).
  intros a m _ Hm. exists m. split; [now apply lookup_app_l_Some | auto].
Qed.

Lemma rep_fresh h par o t al : rep h par o t al -> List.length h ∉ al.
Proof.
  intros H Hin. destruct (rep_lookup _ _ _ _ _ _ H Hin) as (n & Hn).
  apply lookup_lt_Some in Hn. lia.
Qed.

(** One call of [insert] with an object that is not a node, on a
    well-formed tree: however it ends, the tree is well formed again,
    the root is the one it was, and the tree is the one before or the
    one [bst_insert] gives; for a number and a budget above the height
    it is the latter. *)
Lemma insert_rep fuel v s t al :
  rep (heap s) None (root s) t al ->
  Z.of_nat (List.length al) = _length s ->
  isinstance_BasicNode v = false ->
  let s' := snd (insert fuel v s) in
  exists t' al',
    rep (heap s') None (root s') t' al' /\
    Z.of_nat (List.length al') = _length s' /\
    (root s <> None -> root s' = root s) /\
    (t' = t \/ t' = bst_insert v t) /\
    (is_numeric v = true -> height t < fuel -> t' = bst_insert v t).
Proof.
  intros Hrep Hlen Hv. simpl.
  destruct (root s) as [r|] eqn:Hr.
  2:{ inversion Hrep; subst. rewrite (insert_into_empty _ _ _ Hr).
      destruct (is_None v) eqn:Hnone.
      { exists Empty, []. simpl. rewrite Hr. repeat split; auto.
        destruct v; discriminate. }
      destruct (isinstance_HouseOfHades v) eqn:Hh.
      { exists Empty, []. simpl. rewrite Hr. repeat split; auto.
        destruct v; discriminate. }
      exists (Fork Empty v Empty), [List.length (heap s)]. simpl.
      split.
      { apply (rep_leaf_node _ None _ (mkNode BLACK None None v None));
          try reflexivity. apply lookup_fresh. }
      split; [simpl in Hlen; lia|]. split; [contradiction|]. auto. }
  destruct (is_None v) eqn:Hnone.
  { unfold insert. rewrite Hnone. simpl. exists t, al. rewrite Hr.
    repeat split; auto. destruct v; discriminate. }
  rewrite (insert_on_tree _ _ _ _ Hr Hnone), bind_snd.
  destruct (_insert fuel v s) as [o1 s1] eqn:E1.
  destruct (is_numeric v) eqn:Hnum.
  2:{ assert (o1 = Raise AssertionError /\ s1 = s) as (-> & ->).
      { unfold _insert in E1. rewrite Hnum, Hv in E1. now injection E1 as <- <-. }
      exists t, al. rewrite Hr. repeat split; auto. discriminate. }
  assert (_insert_node fuel (Some r) (Some (List.length (heap s)))
            (set_heap (heap s ++ [mkNode RED None None v None]) s) = (o1, s1)) as E.
  { assert (_insert_numeric fuel (root s) v s = (o1, s1)) as E
      by (destruct v; try discriminate; exact E1).
    unfold _insert_numeric in E. rewrite Hr, Hnum in E.
    change (assert true) with (ret tt) in E. rewrite !bind_ret in E.
    now rewrite (bind_step _ _ _ _ _ (BasicNode_init_number v RED s Hnum)) in E. }
  clear E1.
  apply (insert_node_rep fuel _ None r t al _ (mkNode RED None None v None)) in E;
    try reflexivity.
  2:{ simpl. now apply rep_alloc. }
  2:{ simpl. apply lookup_fresh. }
  2:{ exact (rep_fresh _ _ _ _ _ Hrep). }
  simpl in E.
  destruct E as [(-> & -> & Hf)
                |(Ho & R1 & Len1 & Hfr & al' & Hrep' & Hin & Hout & Hx & L1)].
  { exists t, al. simpl. rewrite Hr.
    split; [now apply rep_alloc|]. repeat split; auto. intros _ Hh. lia. }
  assert (Z.of_nat (List.length al') = _length s1) as Hlen1 by lia.
  assert (root s1 = Some r) as Hr1 by (rewrite R1; exact Hr).
  destruct Ho as [(x & ->)|[->|(-> & _)]].
  2,3: exists (bst_insert v t), al'; rewrite Hr1; repeat split; auto.
  rewrite bind_snd.
  destruct (_recolor fuel (Some x) s1) as [o2 s2] eqn:E2.
  pose proof (stable_result _ _ _ _ _ (recoloured_recolor fuel (Some x)) E2) as Rec.
  pose proof (rep_recoloured _ _ _ _ _ _ Rec Hrep') as Hrep2.
  pose proof Rec as (R2 & L2 & _ & _).
  assert (forall s3, s3 = s2 ->
            exists t' al'0,
              rep (heap s3) None (root s3) t' al'0 /\
              Z.of_nat (List.length al'0) = _length s3 /\
              (Some r <> None -> root s3 = Some r) /\
              (t' = t \/ t' = bst_insert v t) /\
              (true = true -> height t < fuel -> t' = bst_insert v t)) as Hstop.
  { intros s3 ->. exists (bst_insert v t), al'. rewrite R2, Hr1.
    repeat split; auto. congruence. }
  destruct o2 as [r2| | |]; try (apply Hstop; reflexivity).
  assert (r2 = Some r) as ->.
  { apply (recolor_returns_root fuel s1 r _ al' x r2 s2 Hr1 Hrep'); [|exact E2].
    now apply Hx. }
  destruct (finish_keeps_root r s2) as (Rf & Rep).
  simpl in Rf. exists (bst_insert v t), al'. rewrite Rf.
  split; [exact (rep_repainted _ _ _ _ _ _ Rep Hrep2)|].
  destruct Rep as (L3 & _).
  repeat split; auto. congruence.
Qed.

Lemma well_formed_grown s : grown s -> well_formed s.
Proof.
  induction 1 as [|s fuel v Hg (t & al & Hrep & Hlen) Hv].
  - exists Empty, []. split; [constructor | reflexivity].
  - destruct (insert_rep fuel v s t al Hrep Hlen Hv) as (t' & al' & H1 & H2 & _).
    exists t', al'. split; assumption.
Qed.

Lemma orderable_is_numeric v : orderable v = true -> is_numeric v = true.
Proof. destruct v; try discriminate; reflexivity. Qed.

Lemma numeric_is_no_node v : is_numeric v = true -> isinstance_BasicNode v = false.
Proof. destruct v; try discriminate; reflexivity. Qed.

Lemma grown_from_numbers_grown s : grown_from_numbers s -> grown s.
Proof.
  induction 1; [constructor|].
  apply grown_insert; [assumption|].
  now apply numeric_is_no_node, orderable_is_numeric.
Qed.

Lemma numbers_insert_all fuel (l : list Z) : forall s,
  grown_from_numbers s -> grown_from_numbers (snd (insert_all fuel (ints l) s)).
Proof.
  induction l as [|z l IH]; intros s H; simpl; [exact H|].
  rewrite bind_snd.
  pose proof (numbers_insert s fuel (VInt z) H eq_refl) as H1.
  destruct (insert fuel (VInt z) s) as [[[]| | |] s1]; simpl in *; auto.
Qed.

Lemma numbers_built fuel l : grown_from_numbers (tree_of fuel l).
Proof. exact (numbers_insert_all fuel l _ numbers_new). Qed.

(** X7: on a tree grown by inserting values, [insert] of a number with
    a budget above the height of the tree does to the structure what
    plain search-tree insertion does, however the call ends: colours
    apart, the tree afterwards is [bst_insert] of the value into the
    tree before. No node is ever moved. *)
Theorem insert_is_plain_search_tree_insertion fuel v s :
  grown s -> is_numeric v = true ->
  height (uncoloured (tree_shape s)) < fuel ->
  uncoloured (tree_shape (snd (insert fuel v s)))
  = bst_insert v (uncoloured (tree_shape s)).
Proof.
  intros Hg Hv Hf.
  destruct (well_formed_grown s Hg) as (t & al & Hrep & Hlen).
  rewrite (rep_tree_shape _ _ _ Hrep) in *.
  destruct (insert_rep fuel v s t al Hrep Hlen (numeric_is_no_node v Hv))
    as (t' & al' & Hrep' & _ & _ & _ & Ht).
  rewrite (rep_tree_shape _ _ _ Hrep'). now apply Ht.
Qed.

Lemma insert_is_plain_search_tree_insertion_witness :
  let s := tree_of 5 [1; 2]%Z in
  grown s /\ is_numeric (VInt 3) = true /\
  height (uncoloured (tree_shape s)) < 5 /\
  uncoloured (tree_shape (snd (insert 5 (VInt 3) s)))
  = bst_insert (VInt 3) (uncoloured (tree_shape s)).
Proof.
  intros s.
  assert (grown s) as H1 by apply grown_from_numbers_grown, numbers_built.
  assert (is_numeric (VInt 3) = true) as H2 by reflexivity.
  assert (height (uncoloured (tree_shape s)) < 5) as H3 by (vm_compute; lia).
  repeat (split; [assumption|]).
  exact (insert_is_plain_search_tree_insertion 5 (VInt 3) s H1 H2 H3).
Defined.

(** X8: on a tree grown by inserting values, [_length] is the number of
    nodes that hang under the root, after every call, however it ended. *)
Theorem length_counts_the_nodes s :
  grown s -> _length s = Z.of_nat (size (uncoloured (tree_shape s))).
Proof.
  intros Hg. destruct (well_formed_grown s Hg) as (t & al & Hrep & Hlen).
  rewrite (rep_tree_shape _ _ _ Hrep), <- (rep_size _ _ _ _ _ Hrep). now symmetry.
Qed.

Lemma length_counts_the_nodes_witness :
  let s := tree_of 5 [1; 2; 3]%Z in
  grown s /\ _length s = Z.of_nat (size (uncoloured (tree_shape s))).
Proof.
  intros s.
  assert (grown s) as H by apply grown_from_numbers_grown, numbers_built.
  split; [exact H|]. exact (length_counts_the_nodes s H).
Defined.

(** X9: once a tree grown by inserting values has a root, no insertion
    of a value replaces it: the root attribute is the same node after
    the call, however it ends. *)
Theorem root_never_changes fuel v s r :
  grown s -> root s = Some r -> isinstance_BasicNode v = false ->
  root (snd (insert fuel v s)) = Some r.
Proof.
  intros Hg Hr Hv.
  destruct (well_formed_grown s Hg) as (t & al & Hrep & Hlen).
  destruct (insert_rep fuel v s t al Hrep Hlen Hv) as (t' & al' & _ & _ & H & _).
  simpl in H. rewrite H; [exact Hr|]. rewrite Hr. discriminate.
Qed.

Lemma root_never_changes_witness :
  let s := tree_of 5 [1; 2]%Z in
  grown s /\ root s = Some 0 /\ isinstance_BasicNode (VInt 3) = false /\
  root (snd (insert 5 (VInt 3) s)) = Some 0.
Proof.
  intros s.
  assert (grown s) as H1 by apply grown_from_numbers_grown, numbers_built.
  assert (root s = Some 0) as H2 by reflexivity.
  assert (isinstance_BasicNode (VInt 3) = false) as H3 by reflexivity.
  repeat (split; [assumption|]).
  exact (root_never_changes 5 (VInt 3) s 0 H1 H2 H3).
Defined.

(** ** Search order *)

Lemma orderable_cmp a b :
  orderable a = true -> orderable b = true ->
  exists c fa fb,
    as_number a = Some fa /\ as_number b = Some fb /\
    number_cmp fa fb = Some c /\ number_cmp fb fa = Some (CompOpp c) /\
    py_eq a b = is_cmp Eq (Some c) /\
    (forall k, py_order k a b = Some (is_cmp k (Some c))) /\
    (forall k, py_order k b a = Some (is_cmp k (Some (CompOpp c)))).
Proof.
  destruct a as [|?|za|[|na|qa]|?|?|?|?]; try discriminate;
    destruct b as [|?|zb|[|nb|qb]|?|?|?|?]; try discriminate; intros _ _;
    try destruct na; try destruct nb; simpl;
    try (do 3 eexists; repeat split; simpl; reflexivity).
  all: do 3 eexists; repeat split; simpl; try reflexivity;
    try (rewrite <- Qcompare_antisym; reflexivity);
    intros k; rewrite <- Qcompare_antisym; reflexivity.
Qed.

Lemma orderable_goes_right a b :
  orderable a = true -> orderable b = true ->
  py_eq a b = false -> py_order Lt a b = Some false -> lt_value b a = true.
Proof.
  intros Ha Hb.
  destruct (orderable_cmp a b Ha Hb) as (c & fa & fb & _ & _ & _ & _ & -> & H1 & H2).
  unfold lt_value. rewrite H1, H2. now destruct c.
Qed.

Lemma orderable_compares a b :
  orderable a = true -> orderable b = true -> py_order Lt a b <> None.
Proof.
  intros Ha Hb.
  destruct (orderable_cmp a b Ha Hb) as (c & fa & fb & _ & _ & _ & _ & _ & H1 & _).
  now rewrite H1.
Qed.

Lemma In_stored_bst_insert v t y :
  In y (stored (bst_insert v t)) -> y = v \/ In y (stored t).
Proof.
  induction t as [|l IHl x r IHr]; simpl.
  - intros [<-|[]]. now left.
  - destruct (py_eq v x); [now right|].
    destruct (py_order Lt v x) as [[|]|]; simpl; [| |now right];
      rewrite !in_app_iff; simpl; rewrite ?in_app_iff; intuition.
Qed.

Lemma stored_kept v t y : In y (stored t) -> In y (stored (bst_insert v t)).
Proof.
  induction t as [|l IHl x r IHr]; simpl; [contradiction|].
  destruct (py_eq v x); [trivial|].
  destruct (py_order Lt v x) as [[|]|]; simpl; trivial;
    rewrite !in_app_iff; simpl; intuition.
Qed.

Lemma ordered_bst_insert v t :
  orderable v = true ->
  (forall x, In x (stored t) -> orderable x = true) ->
  ordered t = true -> ordered (bst_insert v t) = true.
Proof.
  intros Hv. induction t as [|l IHl x r IHr]; intros Ho H; [reflexivity|].
  simpl in *. destruct (py_eq v x) eqn:Eeq; [exact H|].
  assert (orderable x = true) as Hx by (apply Ho, in_app_iff; right; now left).
  apply andb_prop in H as (H & Hr). apply andb_prop in H as (H & Hl).
  apply andb_prop in H as (Hlt & Hgt).
  destruct (py_order Lt v x) as [[|]|] eqn:Eord.
  - simpl. rewrite Hgt, Hr, IHl; auto.
    2:{ intros y Hy. apply Ho, in_app_iff. now left. }
    rewrite !andb_true_r. apply forallb_forall. intros y Hy.
    apply In_stored_bst_insert in Hy as [->|Hy].
    + unfold lt_value. now rewrite Eord.
    + exact (proj1 (forallb_forall _ _) Hlt y Hy).
  - simpl. rewrite Hlt, Hl, IHr; auto.
    2:{ intros y Hy. apply Ho, in_app_iff. right. now right. }
    rewrite !andb_true_r. simpl. apply forallb_forall. intros y Hy.
    apply In_stored_bst_insert in Hy as [->|Hy].
    + now apply orderable_goes_right.
    + exact (proj1 (forallb_forall _ _) Hgt y Hy).
  - now destruct (orderable_compares v x Hv Hx).
Qed.

Lemma values_stored t : values t = stored (uncoloured t).
Proof. induction t; simpl; congruence. Qed.

Lemma is_bst_ordered t : is_bst t = ordered (uncoloured t).
Proof. induction t; simpl; [reflexivity|]. rewrite !values_stored. congruence. Qed.

Lemma ordered_grown_from_numbers s :
  grown_from_numbers s ->
  ordered (uncoloured (tree_shape s)) = true /\
  forall x, In x (stored (uncoloured (tree_shape s))) -> orderable x = true.
Proof.
  induction 1 as [|s fuel v Hg (IHo & IHv) Hv].
  - split; [reflexivity | intros x []].
  - destruct (well_formed_grown s (grown_from_numbers_grown s Hg))
      as (t & al & Hrep & Hlen).
    rewrite (rep_tree_shape _ _ _ Hrep) in *.
    destruct (insert_rep fuel v s t al Hrep Hlen
                (numeric_is_no_node v (orderable_is_numeric v Hv)))
      as (t' & al' & Hrep' & _ & _ & [->| ->] & _);
      rewrite (rep_tree_shape _ _ _ Hrep').
    + split; assumption.
    + split; [now apply ordered_bst_insert|].
      intros x Hx. apply In_stored_bst_insert in Hx as [->|Hx]; auto.
Qed.

(** X10: a tree grown by inserting numbers other than NaN is a search
    tree after every call, however it ended: at every node the values
    on the left are smaller and those on the right greater. *)
Theorem grown_tree_is_a_search_tree s :
  grown_from_numbers s -> is_bst (tree_shape s) = true.
Proof.
  intros H. rewrite is_bst_ordered. now apply ordered_grown_from_numbers.
Qed.

Lemma grown_tree_is_a_search_tree_witness :
  let s := tree_of 5 [1; 2; 3]%Z in
  grown_from_numbers s /\ is_bst (tree_shape s) = true.
Proof.
  intros s.
  assert (grown_from_numbers s) as H by apply numbers_built.
  split; [exact H|]. exact (grown_tree_is_a_search_tree s H).
Defined.

Lemma orderable_equals_itself v : orderable v = true -> py_eq v v = true.
Proof.
  intros Hv.
  destruct (orderable_cmp v v Hv Hv) as (c & fa & fb & E1 & E2 & C1 & C2 & -> & _).
  assert (fa = fb) as -> by congruence.
  rewrite C1 in C2. injection C2 as C2. now destruct c.
Qed.

Lemma bst_insert_stores v t :
  orderable v = true ->
  (forall x, In x (stored t) -> orderable x = true) ->
  exists x, In x (stored (bst_insert v t)) /\ py_eq v x = true.
Proof.
  intros Hv. induction t as [|l IHl x r IHr]; intros Ho; simpl.
  - exists v. split; [now left | now apply orderable_equals_itself].
  - assert (orderable x = true) as Hx by (apply Ho; simpl; apply in_app_iff; right; now left).
    destruct (py_eq v x) eqn:Eeq.
    { exists x. split; [simpl; apply in_app_iff; right; now left | exact Eeq]. }
    destruct (py_order Lt v x) as [[|]|] eqn:Eord.
    + destruct IHl as (y & Hy & Ey).
      { intros y Hy. apply Ho. simpl. apply in_app_iff. now left. }
      exists y. split; [simpl; apply in_app_iff; now left | exact Ey].
    + destruct IHr as (y & Hy & Ey).
      { intros y Hy. apply Ho. simpl. apply in_app_iff. right. now right. }
      exists y. split; [simpl; apply in_app_iff; right; now right | exact Ey].
    + now destruct (orderable_compares v x Hv Hx).
Qed.

(** X11: on a tree grown by inserting numbers other than NaN, after
    [insert] of such a number with a budget above the height, however
    the call ends, some node of the tree stores a value equal to it,
    and every value stored in the tree before is still stored in it. *)
Theorem inserted_value_is_in_the_tree fuel v s :
  grown_from_numbers s -> orderable v = true ->
  height (uncoloured (tree_shape s)) < fuel ->
  let s' := snd (insert fuel v s) in
  (exists x, In x (values (tree_shape s')) /\ py_eq v x = true) /\
  forall y, In y (values (tree_shape s)) -> In y (values (tree_shape s')).
Proof.
  intros Hg Hv Hf. simpl.
  rewrite !values_stored.
  assert (uncoloured (tree_shape (snd (insert fuel v s)))
          = bst_insert v (uncoloured (tree_shape s))) as ->.
  { destruct (well_formed_grown s (grown_from_numbers_grown s Hg))
      as (t & al & Hrep & Hlen).
    rewrite (rep_tree_shape _ _ _ Hrep) in *.
    destruct (insert_rep fuel v s t al Hrep Hlen
                (numeric_is_no_node v (orderable_is_numeric v Hv)))
      as (t' & al' & Hrep' & _ & _ & _ & Ht).
    rewrite (rep_tree_shape _ _ _ Hrep').
    apply Ht; [exact (orderable_is_numeric v Hv) | exact Hf]. }
  split.
  - apply bst_insert_stores; [exact Hv|].
    exact (proj2 (ordered_grown_from_numbers s Hg)).
  - intros y. apply stored_kept.
Qed.

Lemma inserted_value_is_in_the_tree_witness :
  let s := tree_of 5 [1; 2]%Z in
  let s' := snd (insert 5 (VInt 3) s) in
  grown_from_numbers s /\ orderable (VInt 3) = true /\
  height (uncoloured (tree_shape s)) < 5 /\
  (exists x, In x (values (tree_shape s')) /\ py_eq (VInt 3) x = true) /\
  forall y, In y (values (tree_shape s)) -> In y (values (tree_shape s')).
Proof.
  intros s s'.
  assert (grown_from_numbers s) as H1 by apply numbers_built.
  assert (orderable (VInt 3) = true) as H2 by reflexivity.
  assert (height (uncoloured (tree_shape s)) < 5) as H3 by (vm_compute; lia).
  repeat (split; [assumption|]).
  exact (inserted_value_is_in_the_tree 5 (VInt 3) s H1 H2 H3).
Defined.

(** ** Parents, children and siblings *)

Lemma rep_top h par c t al :
  rep h par (Some c) t al ->
  c ∈ al /\ exists nc, h !! c = Some nc /\ _parent nc = par /\ In (_data nc) (stored t).
Proof.
  inversion 1; subst. split; [left|]. eexists. repeat split; eauto.
  simpl. apply in_app_iff. right. now left.
Qed.

Lemma rep_child h par o t al p np c :
  rep h par o t al -> p ∈ al -> h !! p = Some np ->
  _left np = Some c \/ _right np = Some c ->
  c ∈ al /\ exists nc, h !! c = Some nc /\ _parent nc = Some p.
Proof.
  induction 1 as [|par a n l r al ar Hn Hp Hl IHl Hr IHr Hd]; intros Hin Hnp Hc.
  - now apply elem_of_nil in Hin.
  - apply elem_of_cons in Hin as [->|Hin].
    + assert (np = n) as -> by congruence.
      destruct Hc as [Hc|Hc]; rewrite Hc in *.
      * destruct (rep_top _ _ _ _ _ Hl) as (Hin & nc & Hnc & Hpar & _).
        split; [right; apply elem_of_app; now left | eauto].
      * destruct (rep_top _ _ _ _ _ Hr) as (Hin & nc & Hnc & Hpar & _).
        split; [right; apply elem_of_app; now right | eauto].
    + apply elem_of_app in Hin as [Hin|Hin].
      * destruct (IHl Hin Hnp Hc) as (Hc' & H'). split; [|exact H'].
        right. apply elem_of_app. now left.
      * destruct (IHr Hin Hnp Hc) as (Hc' & H'). split; [|exact H'].
        right. apply elem_of_app. now right.
Qed.

Lemma in_tree_rep s t al a :
  rep (heap s) None (root s) t al -> in_tree s a -> a ∈ al.
Proof.
  intros Hrep. induction 1 as [r Hr|p n c Hp IH Hn Hc|p n c Hp IH Hn Hc].
  - rewrite Hr in Hrep. exact (proj1 (rep_top _ _ _ _ _ Hrep)).
  - exact (proj1 (rep_child _ _ _ _ _ _ _ c Hrep IH Hn (or_introl Hc))).
  - exact (proj1 (rep_child _ _ _ _ _ _ _ c Hrep IH Hn (or_intror Hc))).
Qed.

(** X12: in a tree grown by inserting values, the back-references are
    right after every call, however it ended: the root has no parent,
    and [get_children] of a node of the tree returns nodes of the tree
    whose [get_parent] is that node. *)
Theorem children_point_back_to_their_parent s p :
  grown s -> in_tree s p ->
  (root s = Some p -> get_parent p s = (Ok None, s)) /\
  exists cs,
    get_children p s = (Ok cs, s) /\
    forall c, c ∈ cs -> in_tree s c /\ get_parent c s = (Ok (Some p), s).
Proof.
  intros Hg Hp.
  destruct (well_formed_grown s Hg) as (t & al & Hrep & _).
  pose proof (in_tree_rep s t al p Hrep Hp) as Hin.
  destruct (rep_lookup _ _ _ _ _ _ Hrep Hin) as (np & Hnp).
  split.
  - intros Hr. rewrite Hr in Hrep.
    destruct (rep_top _ _ _ _ _ Hrep) as (_ & n & Hn & Hpar & _).
    rewrite (get_parent_Some _ _ _ Hn). now rewrite Hpar.
  - eexists. split.
    { unfold get_children. rewrite (bind_step _ _ _ _ _ (load_Some _ _ _ Hnp)).
      reflexivity. }
    intros c Hc.
    assert (_left np = Some c \/ _right np = Some c) as Hside.
    { apply elem_of_app in Hc as [Hc|Hc].
      - left. destruct (_left np); [|now apply elem_of_nil in Hc].
        apply list_elem_of_singleton in Hc. now subst.
      - right. destruct (_right np); [|now apply elem_of_nil in Hc].
        apply list_elem_of_singleton in Hc. now subst. }
    destruct (rep_child _ _ _ _ _ _ _ c Hrep Hin Hnp Hside) as (_ & nc & Hnc & Hpar).
    split.
    + destruct Hside as [Hs|Hs];
        [exact (in_tree_left s p np c Hp Hnp Hs) | exact (in_tree_right s p np c Hp Hnp Hs)].
    + rewrite (get_parent_Some _ _ _ Hnc). now rewrite Hpar.
Qed.

Lemma children_point_back_to_their_parent_witness :
  let s := tree_of 5 [10; 5; 15]%Z in
  grown s /\ in_tree s 0 /\
  (root s = Some 0 -> get_parent 0 s = (Ok None, s)) /\
  exists cs,
    get_children 0 s = (Ok cs, s) /\
    forall c, c ∈ cs -> in_tree s c /\ get_parent c s = (Ok (Some 0), s).
Proof.
  intros s.
  assert (grown s) as H1 by apply grown_from_numbers_grown, numbers_built.
  assert (in_tree s 0) as H2 by (apply in_tree_root; reflexivity).
  split; [exact H1|]. split; [exact H2|].
  exact (children_point_back_to_their_parent s 0 H1 H2).
Defined.

Lemma rep_stored h par o t al a n :
  rep h par o t al -> a ∈ al -> h !! a = Some n -> In (_data n) (stored t).
Proof.
  induction 1 as [|par a0 n0 l r al ar Hn Hp Hl IHl Hr IHr Hd]; intros Hin Hm.
  - now apply elem_of_nil in Hin.
  - simpl. apply in_app_iff. apply elem_of_cons in Hin as [->|Hin].
    + right. left. congruence.
    + apply elem_of_app in Hin as [Hin|Hin]; [left | right; right]; auto.
Qed.

Lemma ordered_parts l v r :
  ordered (Fork l v r) = true ->
  (forall x, In x (stored l) -> lt_value x v = true) /\
  (forall x, In x (stored r) -> lt_value v x = true) /\
  ordered l = true /\ ordered r = true.
Proof.
  simpl. intros H.
  apply andb_prop in H as (H & Hr). apply andb_prop in H as (H & Hl).
  apply andb_prop in H as (Hlt & Hgt).
  repeat split; try assumption; intros x Hx;
    [exact (proj1 (forallb_forall _ _) Hlt x Hx)
    |exact (proj1 (forallb_forall _ _) Hgt x Hx)].
Qed.

(** In a search tree of the store a left child stores less than its
    parent and a right child more. *)
Lemma rep_child_order h par o t al p np c nc :
  rep h par o t al -> ordered t = true ->
  p ∈ al -> h !! p = Some np -> h !! c = Some nc ->
  (_left np = Some c -> lt_value (_data nc) (_data np) = true) /\
  (_right np = Some c -> lt_value (_data np) (_data nc) = true).
Proof.
  induction 1 as [|par a n l r al ar Hn Hp Hl IHl Hr IHr Hd];
    intros Ho Hin Hnp Hnc.
  - now apply elem_of_nil in Hin.
  - destruct (ordered_parts _ _ _ Ho) as (Hlt & Hgt & Hol & Hor).
    apply elem_of_cons in Hin as [->|Hin].
    + assert (np = n) as -> by congruence. split; intros Hc; rewrite Hc in *.
      * destruct (rep_top _ _ _ _ _ Hl) as (_ & m & Hm & _ & Hst).
        assert (m = nc) as -> by congruence. now apply Hlt.
      * destruct (rep_top _ _ _ _ _ Hr) as (_ & m & Hm & _ & Hst).
        assert (m = nc) as -> by congruence. now apply Hgt.
    + apply elem_of_app in Hin as [Hin|Hin]; auto.
Qed.

Lemma is_left_child_value s c nc p np :
  heap s !! c = Some nc -> _parent nc = Some p -> heap s !! p = Some np ->
  is_left_child c s = compare Gt (_data np) (_data nc) s /\
  is_right_child c s = compare Lt (_data np) (_data nc) s.
Proof.
  intros Hc Hpar Hp. unfold is_left_child, is_right_child.
  rewrite !(bind_step _ _ _ _ _ (get_parent_Some _ _ _ Hc)), Hpar. simpl on.
  rewrite !(bind_step _ _ _ _ _ (get_data_Some _ _ _ Hp)).
  rewrite !(bind_step _ _ _ _ _ (get_data_Some _ _ _ Hc)). split; reflexivity.
Qed.

Lemma lt_value_sides a b :
  orderable a = true -> orderable b = true -> lt_value a b = true ->
  py_order Gt b a = Some true /\ py_order Lt b a = Some false /\
  py_order Gt a b = Some false /\ py_order Lt a b = Some true.
Proof.
  intros Ha Hb. unfold lt_value.
  destruct (orderable_cmp a b Ha Hb) as (c & fa & fb & _ & _ & _ & _ & _ & H1 & H2).
  rewrite !H1, !H2. destruct c; try discriminate. repeat split.
Qed.

(** X13: in a tree grown by inserting numbers other than NaN, the side
    tests, which compare values, agree with the slots: a node that is
    the left child of its parent answers [True] to [is_left_child] and
    [False] to [is_right_child], and [get_sibling] returns the right
    child of the parent; symmetrically for a right child. *)
Theorem side_by_value_is_side_by_slot s p np c :
  grown_from_numbers s -> in_tree s p -> heap s !! p = Some np ->
  (_left np = Some c ->
     is_left_child c s = (Ok true, s) /\ is_right_child c s = (Ok false, s) /\
     get_sibling c s = (Ok (_right np), s)) /\
  (_right np = Some c ->
     is_left_child c s = (Ok false, s) /\ is_right_child c s = (Ok true, s) /\
     get_sibling c s = (Ok (_left np), s)).
Proof.
  intros Hg Hp Hnp.
  destruct (well_formed_grown s (grown_from_numbers_grown s Hg))
    as (t & al & Hrep & _).
  destruct (ordered_grown_from_numbers s Hg) as (Ho & Hv).
  rewrite (rep_tree_shape _ _ _ Hrep) in *.
  pose proof (in_tree_rep s t al p Hrep Hp) as Hin.
  assert (forall c, _left np = Some c \/ _right np = Some c ->
            exists nc, heap s !! c = Some nc /\ _parent nc = Some p /\
                       orderable (_data nc) = true) as Hchild.
  { intros c' Hc.
    destruct (rep_child _ _ _ _ _ _ _ c' Hrep Hin Hnp Hc) as (Hc' & nc & Hnc & Hpar).
    exists nc. repeat split; auto.
    exact (Hv _ (rep_stored _ _ _ _ _ _ _ Hrep Hc' Hnc)). }
  assert (orderable (_data np) = true) as Hop
    by exact (Hv _ (rep_stored _ _ _ _ _ _ _ Hrep Hin Hnp)).
  split; intros Hc.
  - destruct (Hchild c (or_introl Hc)) as (nc & Hnc & Hpar & Hoc).
    destruct (rep_child_order _ _ _ _ _ _ _ c nc Hrep Ho Hin Hnp Hnc) as (Hlt & _).
    destruct (lt_value_sides _ _ Hoc Hop (Hlt Hc)) as (G & L & _ & _).
    destruct (is_left_child_value s c nc p np Hnc Hpar Hnp) as (El & Er).
    assert (is_left_child c s = (Ok true, s)) as El'
      by (rewrite El; unfold compare; now rewrite G).
    split; [exact El'|]. split; [rewrite Er; unfold compare; now rewrite L|].
    unfold get_sibling.
    rewrite (bind_step _ _ _ _ _ (get_parent_Some _ _ _ Hnc)), Hpar.
    rewrite (bind_step _ _ _ _ _ El'). exact (get_right_Some _ _ _ Hnp).
  - destruct (Hchild c (or_intror Hc)) as (nc & Hnc & Hpar & Hoc).
    destruct (rep_child_order _ _ _ _ _ _ _ c nc Hrep Ho Hin Hnp Hnc) as (_ & Hgt).
    destruct (lt_value_sides _ _ Hop Hoc (Hgt Hc)) as (_ & _ & G & L).
    destruct (is_left_child_value s c nc p np Hnc Hpar Hnp) as (El & Er).
    assert (is_left_child c s = (Ok false, s)) as El'
      by (rewrite El; unfold compare; now rewrite G).
    split; [exact El'|]. split; [rewrite Er; unfold compare; now rewrite L|].
    unfold get_sibling.
    rewrite (bind_step _ _ _ _ _ (get_parent_Some _ _ _ Hnc)), Hpar.
    rewrite (bind_step _ _ _ _ _ El'). exact (get_left_Some _ _ _ Hnp).
Qed.

Lemma side_by_value_is_side_by_slot_witness :
  let s := tree_of 5 [10; 5; 15]%Z in
  let np := mkNode BLACK (Some 1) (Some 2) (VInt 10) None in
  grown_from_numbers s /\ in_tree s 0 /\ heap s !! 0 = Some np /\
  (_left np = Some 1 ->
     is_left_child 1 s = (Ok true, s) /\ is_right_child 1 s = (Ok false, s) /\
     get_sibling 1 s = (Ok (_right np), s)) /\
  (_right np = Some 2 ->
     is_left_child 2 s = (Ok false, s) /\ is_right_child 2 s = (Ok true, s) /\
     get_sibling 2 s = (Ok (_left np), s)).
Proof.
  intros s np.
  assert (grown_from_numbers s) as H1 by apply numbers_built.
  assert (in_tree s 0) as H2 by (apply in_tree_root; reflexivity).
  assert (heap s !! 0 = Some np) as H3 by reflexivity.
  split; [exact H1|]. split; [exact H2|]. split; [exact H3|].
  split.
  - exact (proj1 (side_by_value_is_side_by_slot s 0 np 1 H1 H2 H3)).
  - exact (proj2 (side_by_value_is_side_by_slot s 0 np 2 H1 H2 H3)).
Defined.

(** ** How insertion of a number can end *)

Lemma climbs_extend h par a n x d :
  h !! a = Some n -> _parent n = par ->
  climbs h (Some a) x d -> climbs h par x (S d).
Proof.
  intros Ha Hp. induction 1 as [x m Hx Hm|x m p d Hx Hm Hc IH].
  - apply (climbs_step _ _ x m a); [assumption..|]. now apply (climbs_top _ _ a n).
  - now apply (climbs_step _ _ x m p).
Qed.

Lemma rep_climbs h par o t al x :
  rep h par o t al -> x ∈ al -> exists d, d < height t /\ climbs h par x d.
Proof.
  induction 1 as [|par a n l r al ar Hn Hp Hl IHl Hr IHr Hd]; intros Hin.
  - now apply elem_of_nil in Hin.
  - apply elem_of_cons in Hin as [->|Hin].
    + exists 0. split; [simpl; lia | now apply (climbs_top _ _ a n)].
    + apply elem_of_app in Hin as [Hin|Hin].
      * destruct (IHl Hin) as (d & Hd' & Hc). exists (S d).
        split; [simpl; lia | exact (climbs_extend _ _ _ _ _ _ Hn Hp Hc)].
      * destruct (IHr Hin) as (d & Hd' & Hc). exists (S d).
        split; [simpl; lia | exact (climbs_extend _ _ _ _ _ _ Hn Hp Hc)].
Qed.

Lemma climbs_recoloured s s' par x d :
  recoloured s s' -> climbs (heap s) par x d -> climbs (heap s') par x d.
Proof.
  intros R. induction 1 as [x n Hx Hn|x n p d Hx Hn Hc IH].
  - destruct (recoloured_lookup _ _ _ _ R Hx) as (n' & Hx' & Hl & _).
    injection Hl as _ _ Hp. apply (climbs_top _ _ x n'); congruence.
  - destruct (recoloured_lookup _ _ _ _ R Hx) as (n' & Hx' & Hl & _).
    injection Hl as _ _ Hp. apply (climbs_step _ _ x n' p); congruence.
Qed.

Lemma height_bst_insert v t : height (bst_insert v t) <= S (height t).
Proof.
  induction t as [|l IHl x r IHr]; simpl; [lia|].
  destruct (py_eq v x); [simpl; lia|].
  destruct (py_order Lt v x) as [[|]|]; simpl; lia.
Qed.

Lemma set_color_run s a c n :
  heap s !! a = Some n ->
  exists s', set_color a c s = (Ok tt, s') /\ recoloured s s'.
Proof.
  intros H. eexists. split; [exact (modify_Some _ _ _ _ H)|].
  pose proof (recoloured_set_color a c s) as R.
  unfold set_color in R. now rewrite (modify_Some _ _ _ _ H) in R.
Qed.

Lemma set_parent_raises o s : lookup_method o "set_parent" s = (Raise AttributeError, s).
Proof. now destruct o. Qed.

Lemma rotate_left_raises s a n :
  heap s !! a = Some n -> _rotate_left (Some a) s = (Raise AttributeError, s).
Proof.
  intros H. unfold _rotate_left.
  rewrite (bind_step _ _ _ _ _ (get_right_Some _ _ _ H)).
  apply bind_stop, set_parent_raises.
Qed.

Lemma rotate_right_raises s a n :
  heap s !! a = Some n -> _rotate_right (Some a) s = (Raise AttributeError, s).
Proof.
  intros H. unfold _rotate_right.
  rewrite (bind_step _ _ _ _ _ (get_left_Some _ _ _ H)).
  apply bind_stop, set_parent_raises.
Qed.

Lemma compare_orderable k a b s :
  orderable a = true -> orderable b = true ->
  exists r, compare k a b s = (Ok r, s).
Proof.
  intros Ha Hb.
  destruct (orderable_cmp a b Ha Hb) as (c & fa & fb & _ & _ & _ & _ & _ & H1 & _).
  unfold compare. rewrite H1. eauto.
Qed.

Lemma is_left_child_run s c nc p np :
  heap s !! c = Some nc -> _parent nc = Some p -> heap s !! p = Some np ->
  orderable (_data nc) = true -> orderable (_data np) = true ->
  exists b, is_left_child c s = (Ok b, s).
Proof.
  intros Hc Hpar Hp Hoc Hop.
  rewrite (proj1 (is_left_child_value s c nc p np Hc Hpar Hp)).
  now apply compare_orderable.
Qed.

Lemma and_then_run (a b : M bool) s x y :
  a s = (Ok x, s) -> b s = (Ok y, s) -> and_then a b s = (Ok (x && y), s).
Proof.
  intros Ha Hb. unfold and_then. rewrite (bind_step _ _ _ _ _ Ha).
  destruct x; [exact Hb | reflexivity].
Qed.

Lemma not_run (a : M bool) s x : a s = (Ok x, s) -> not_ a s = (Ok (negb x), s).
Proof. intros Ha. unfold not_. now rewrite (bind_step _ _ _ _ _ Ha). Qed.

(** On nodes that store numbers, case III always ends in the
    AttributeError of a rotation. *)
Lemma recolor_case3_raises s x nx p np g ng :
  heap s !! x = Some nx -> _parent nx = Some p ->
  heap s !! p = Some np -> _parent np = Some g ->
  heap s !! g = Some ng ->
  orderable (_data nx) = true -> orderable (_data np) = true ->
  orderable (_data ng) = true ->
  exists s', __recolor_case3 (Some x) s = (Raise AttributeError, s').
Proof.
  intros Hx Hpx Hp Hpg Hg Hox Hop Hog.
  destruct (is_left_child_run s p np g ng Hp Hpg Hg Hop Hog) as (b1 & E1).
  destruct (is_left_child_run s x nx p np Hx Hpx Hp Hox Hop) as (b2 & E2).
  assert (exists s',
            (on (Some g) (fun g => set_color g RED) ;;
             on (Some p) (fun p => set_color p BLACK) ;;
             _rotate_right (Some g)) s = (Raise AttributeError, s') /\
            (on (Some g) (fun g => set_color g RED) ;;
             on (Some p) (fun p => set_color p BLACK) ;;
             _rotate_left (Some g)) s = (Raise AttributeError, s')) as (s2 & Er & El).
  { destruct (set_color_run s g RED ng Hg) as (s1 & Es1 & R1).
    destruct (recoloured_lookup _ _ _ _ R1 Hp) as (np1 & Hp1 & _).
    destruct (set_color_run s1 p BLACK np1 Hp1) as (s2 & Es2 & R2).
    destruct (recoloured_lookup _ _ _ _ R1 Hg) as (ng1 & Hg1 & _).
    destruct (recoloured_lookup _ _ _ _ R2 Hg1) as (ng2 & Hg2 & _).
    exists s2. simpl on.
    rewrite !(bind_step _ _ _ _ _ Es1), !(bind_step _ _ _ _ _ Es2).
    split; [exact (rotate_right_raises _ _ _ Hg2) | exact (rotate_left_raises _ _ _ Hg2)]. }
  unfold __recolor_case3.
  rewrite (bind_step _ _ _ _ _ (get_parent_Some _ _ _ Hx)), Hpx.
  rewrite (bind_step _ _ _ _ _ (get_parent_Some _ _ _ Hp)), Hpg.
  rewrite (bind_step _ _ _ _ _
             (and_then_run (on (Some p) is_left_child) (is_left_child x) s b1 b2 E1 E2)).
  destruct (b1 && b2); [eauto|].
  rewrite (bind_step _ _ _ _ _
             (and_then_run (on (Some p) is_left_child) (not_ (is_left_child x)) s
                           b1 (negb b2) E1 (not_run _ _ _ E2))).
  destruct (b1 && negb b2).
  { exists s. apply bind_stop. exact (rotate_left_raises _ _ _ Hp). }
  rewrite (bind_step _ _ _ _ _
             (and_then_run (not_ (on (Some p) is_left_child)) (is_left_child x) s
                           (negb b1) b2 (not_run (on (Some p) is_left_child) _ _ E1) E2)).
  destruct (negb b1 && b2).
  { exists s. apply bind_stop. exact (rotate_right_raises _ _ _ Hp). }
  eauto.
Qed.

Lemma get_uncle_run s o t al x :
  rep (heap s) None o t al ->
  (forall y, In y (stored t) -> orderable y = true) ->
  x ∈ al ->
  exists u, get_uncle x s = (Ok u, s) /\ forall a, u = Some a -> a ∈ al.
Proof.
  intros Hrep Ho Hx.
  destruct (rep_lookup _ _ _ _ _ _ Hrep Hx) as (nx & Hnx).
  unfold get_uncle. rewrite (bind_step _ _ _ _ _ (get_parent_Some _ _ _ Hnx)).
  destruct (rep_parent _ _ _ _ _ _ _ Hrep Hx Hnx) as [(_ & Hpar)|(p & Hpar & Hp)];
    rewrite Hpar.
  { exists None. split; [reflexivity | discriminate]. }
  destruct (rep_lookup _ _ _ _ _ _ Hrep Hp) as (np & Hnp).
  rewrite (bind_step _ _ _ _ _ (get_parent_Some _ _ _ Hnp)).
  destruct (rep_parent _ _ _ _ _ _ _ Hrep Hp Hnp) as [(_ & Hgp)|(g & Hgp & Hg)];
    rewrite Hgp.
  { exists None. split; [reflexivity | discriminate]. }
  destruct (rep_lookup _ _ _ _ _ _ Hrep Hg) as (ng & Hng).
  destruct (is_left_child_run s p np g ng Hnp Hgp Hng) as (b & Eb).
  { exact (Ho _ (rep_stored _ _ _ _ _ _ _ Hrep Hp Hnp)). }
  { exact (Ho _ (rep_stored _ _ _ _ _ _ _ Hrep Hg Hng)). }
  rewrite (bind_step _ _ _ _ _ Eb).
  destruct b.
  - exists (_right ng). split; [exact (get_right_Some _ _ _ Hng)|].
    intros a Ha.
    exact (proj1 (rep_child _ _ _ _ _ _ _ a Hrep Hg Hng (or_intror Ha))).
  - exists (_left ng). split; [exact (get_left_Some _ _ _ Hng)|].
    intros a Ha.
    exact (proj1 (rep_child _ _ _ _ _ _ _ a Hrep Hg Hng (or_introl Ha))).
Qed.

Lemma recolor_unfold fuel n :
  _recolor (S fuel) (Some n) =
  (uncle <- get_uncle n ;;
   parent <- get_parent n ;;
   grandparent <- match parent with
                  | Some p => get_parent p
                  | None => ret None
                  end ;;
   match parent, grandparent with
   | None, _ => ret (Some n)
   | Some _, None => ret parent
   | Some p, Some g =>
       pc <- get_color p ;;
       if Color_eqb pc BLACK then get_root
       else
         red <- uncle_is_red uncle ;;
         grandparent <-
           (if red then
              set_color p BLACK ;;
              on uncle (fun u => set_color u BLACK) ;;
              set_color g RED ;;
              ret grandparent
            else
              great_grandparent <- get_parent g ;;
              grandparent <- __recolor_case3 (Some n) ;;
              match great_grandparent with
              | Some gg =>
                  ggd <- get_data gg ;;
                  gd <- on grandparent get_data ;;
                  gt <- compare Gt ggd gd ;;
                  if gt then set_left gg grandparent
                  else set_right gg grandparent
              | None => ret tt
              end ;;
              ret grandparent) ;;
         _recolor fuel grandparent
   end).
Proof. reflexivity. Qed.

(** Started at a node of a tree of numbers, with a budget above half
    the depth of the node, the recolouring procedure returns or raises
    the AttributeError of a rotation. *)
Lemma recolor_ends r t al :
  (forall y, In y (stored t) -> orderable y = true) ->
  forall fuel s x d,
    root s = Some r -> rep (heap s) None (Some r) t al -> x ∈ al ->
    climbs (heap s) None x d -> d < 2 * fuel ->
    (exists a s', _recolor fuel (Some x) s = (Ok a, s'))
    \/ (exists s', _recolor fuel (Some x) s = (Raise AttributeError, s')).
Proof.
  intros Ho. induction fuel as [|fuel IH]; intros s x d Hroot Hrep Hx Hc Hd; [lia|].
  rewrite recolor_unfold.
  destruct (get_uncle_run s _ t al x Hrep Ho Hx) as (u & Eu & Hu).
  rewrite (bind_step _ _ _ _ _ Eu).
  destruct (rep_lookup _ _ _ _ _ _ Hrep Hx) as (nx & Hnx).
  rewrite (bind_step _ _ _ _ _ (get_parent_Some _ _ _ Hnx)).
  destruct (rep_parent _ _ _ _ _ _ _ Hrep Hx Hnx) as [(_ & Hpar)|(p & Hpar & Hp)];
    rewrite Hpar.
  { left. do 2 eexists. reflexivity. }
  destruct (rep_lookup _ _ _ _ _ _ Hrep Hp) as (np & Hnp).
  rewrite (bind_step _ _ _ _ _ (get_parent_Some _ _ _ Hnp)).
  destruct (rep_parent _ _ _ _ _ _ _ Hrep Hp Hnp) as [(_ & Hgp)|(g & Hgp & Hg)];
    rewrite Hgp.
  { left. do 2 eexists. reflexivity. }
  destruct (rep_lookup _ _ _ _ _ _ Hrep Hg) as (ng & Hng).
  rewrite (bind_step _ _ _ _ _ (get_color_Some _ _ _ Hnp)).
  destruct (Color_eqb (_color np) BLACK).
  { left. do 2 eexists. reflexivity. }
  assert (exists red, uncle_is_red u s = (Ok red, s) /\
                      (red = true -> exists a na, u = Some a /\ heap s !! a = Some na))
    as (red & Ered & Hred).
  { destruct u as [a|].
    - destruct (rep_lookup _ _ _ _ _ _ Hrep (Hu a eq_refl)) as (na & Hna).
      eexists. split.
      + unfold uncle_is_red. rewrite (bind_step _ _ _ _ _ (get_color_Some _ _ _ Hna)).
        reflexivity.
      + eauto.
    - exists false. split; [reflexivity | discriminate]. }
  rewrite (bind_step _ _ _ _ _ Ered).
  destruct red.
  - destruct (Hred eq_refl) as (a & na & -> & Hna).
    destruct (set_color_run s p BLACK np Hnp) as (s1 & E1 & R1).
    destruct (recoloured_lookup _ _ _ _ R1 Hna) as (na1 & Hna1 & _).
    destruct (set_color_run s1 a BLACK na1 Hna1) as (s2 & E2 & R2).
    destruct (recoloured_lookup _ _ _ _ R1 Hng) as (ng1 & Hng1 & _).
    destruct (recoloured_lookup _ _ _ _ R2 Hng1) as (ng2 & Hng2 & _).
    destruct (set_color_run s2 g RED ng2 Hng2) as (s3 & E3 & R3).
    assert (recoloured s s3) as R by (etransitivity; [|exact R3]; etransitivity; eassumption).
    assert ((set_color p BLACK ;; on (Some a) (fun u => set_color u BLACK) ;;
             set_color g RED ;; ret (Some g)) s = (Ok (Some g), s3)) as Eblock.
    { rewrite (bind_step _ _ _ _ _ E1). simpl on.
      rewrite (bind_step _ _ _ _ _ E2), (bind_step _ _ _ _ _ E3). reflexivity. }
    rewrite (bind_step _ _ _ _ _ Eblock).
    inversion Hc as [x' n' Hx' Hp'|x' n' p' d' Hx' Hp' Hc']; subst;
      [congruence|].
    assert (p' = p) as -> by congruence.
    inversion Hc' as [x' n'' Hx'' Hp''|x' n'' g' d'' Hx'' Hp'' Hc'']; subst;
      [congruence|].
    assert (g' = g) as -> by congruence.
    apply (IH s3 g d'').
    + destruct R as (-> & _). exact Hroot.
    + exact (rep_recoloured _ _ _ _ _ _ R Hrep).
    + exact Hg.
    + exact (climbs_recoloured _ _ _ _ _ R Hc'').
    + lia.
  - destruct (recolor_case3_raises s x nx p np g ng Hnx Hpar Hnp Hgp Hng)
      as (s' & E3).
    { exact (Ho _ (rep_stored _ _ _ _ _ _ _ Hrep Hx Hnx)). }
    { exact (Ho _ (rep_stored _ _ _ _ _ _ _ Hrep Hp Hnp)). }
    { exact (Ho _ (rep_stored _ _ _ _ _ _ _ Hrep Hg Hng)). }
    right. exists s'. apply bind_stop.
    rewrite (bind_step _ _ _ _ _ (get_parent_Some _ _ _ Hng)).
    apply bind_stop. exact E3.
Qed.

Lemma set_child_ends (set_child : addr -> option addr -> M unit) start new s o s1 :
  set_child = set_left \/ set_child = set_right ->
  (set_child start (Some new) ;; incr_length ;; ret (Some new)) s = (o, s1) ->
  o <> Raise TypeError.
Proof.
  intros Hc H.
  assert (forall o' s', set_child start (Some new) s = (o', s') ->
                        o' = Ok tt \/ o' = Wild) as Hset.
  { intros o' s' E.
    destruct Hc as [-> | ->]; unfold set_left, set_right, bind, modify in E;
      (destruct (heap s !! start); simpl in E;
       [destruct (_ !! new) in E|]; injection E as <- _; auto). }
  destruct (set_child start (Some new) s) as [o' s'] eqn:E.
  unfold bind in H. rewrite E in H.
  destruct (Hset o' s' eq_refl) as [-> | ->]; injection H as <- _; discriminate.
Qed.

(** With numbers other than NaN in the tree and in the new node, the
    descent never raises a TypeError: every comparison gives a result. *)
Lemma insert_node_orderable fuel : forall s par start t al new nn o s1,
  rep (heap s) par (Some start) t al ->
  (forall y, In y (stored t) -> orderable y = true) ->
  heap s !! new = Some nn -> orderable (_data nn) = true ->
  _insert_node fuel (Some start) (Some new) s = (o, s1) ->
  o <> Raise TypeError.
Proof.
  induction fuel as [|fuel IH];
    intros s par start t al new nn o s1 Hrep Ho Hnn Hv H; simpl in H.
  { injection H as <- _. discriminate. }
  inversion Hrep as [|par' a n l r al_l al_r Hn Hp Hl Hr Hd]; subst.
  assert (orderable (_data n) = true) as Hon
    by (apply Ho; simpl; apply in_app_iff; right; now left).
  rewrite (bind_step _ _ _ _ _ (get_data_Some _ _ _ Hnn)) in H.
  rewrite (bind_step _ _ _ _ _ (get_data_Some _ _ _ Hn)) in H.
  destruct (py_eq _ _).
  { unfold bind in H.
    destruct (warn_result (_data nn) s) as [(_ & Ew)|(_ & Ew)]; rewrite Ew in H;
      injection H as <- _; discriminate. }
  rewrite (bind_step _ _ _ _ _ (get_data_Some _ _ _ Hn)) in H.
  destruct (compare_orderable Lt (_data nn) (_data n) s Hv Hon) as (b & Eb).
  rewrite (bind_step _ _ _ _ _ Eb) in H.
  destruct b.
  - rewrite (bind_step _ _ _ _ _ (get_left_Some _ _ _ Hn)) in H.
    destruct (_left n) as [c|] eqn:Hc.
    + apply (IH _ _ _ _ _ _ _ _ _ Hl) with (2 := Hnn) (4 := H); [|exact Hv].
      intros y Hy. apply Ho. simpl. apply in_app_iff. now left.
    + exact (set_child_ends set_left _ _ _ _ _ (or_introl eq_refl) H).
  - rewrite (bind_step _ _ _ _ _ (get_right_Some _ _ _ Hn)) in H.
    destruct (_right n) as [c|] eqn:Hc.
    + apply (IH _ _ _ _ _ _ _ _ _ Hr) with (2 := Hnn) (4 := H); [|exact Hv].
      intros y Hy. apply Ho. simpl. apply in_app_iff. right. now right.
    + exact (set_child_ends set_right _ _ _ _ _ (or_intror eq_refl) H).
Qed.

Lemma finish_run r n s :
  heap s !! r = Some n ->
  exists s', (put_root (Some r) ;; r0 <- get_root ;;
              on r0 (fun r0 => set_color r0 BLACK)) s = (Ok tt, s').
Proof.
  intros H. unfold bind, put_root, get_root, set_color, modify. simpl.
  rewrite H. eauto.
Qed.

(** The end of [insert] on a non-empty tree of numbers: started at a
    node of the tree with a budget not below the height, the recolouring
    and the repainting of the root return, or the recolouring raises the
    AttributeError of a rotation; the root attribute and the tree are as
    before, colours apart. *)
Lemma insert_tail_ends fuel r t al x s :
  root s = Some r -> rep (heap s) None (Some r) t al ->
  (forall y, In y (stored t) -> orderable y = true) ->
  x ∈ al -> height t <= fuel ->
  exists o s',
    (r0 <- _recolor fuel (Some x) ;;
     put_root r0 ;;
     r1 <- get_root ;;
     on r1 (fun r1 => set_color r1 BLACK)) s = (o, s') /\
    (o = Ok tt \/ o = Raise AttributeError) /\
    root s' = Some r /\ rep (heap s') None (Some r) t al /\ repainted s s'.
Proof.
  intros Hroot Hrep Ho Hin Hf.
  destruct (rep_climbs _ _ _ _ _ x Hrep Hin) as (d & Hd & Hc).
  destruct (recolor_ends r _ al Ho fuel s x d Hroot Hrep Hin Hc ltac:(lia))
    as [(a & s2 & E2)|(s2 & E2)].
  - assert (a = Some r) as ->
      by exact (recolor_returns_root fuel s r _ al x a s2 Hroot Hrep Hin E2).
    pose proof (stable_result _ _ _ _ _ (recoloured_recolor fuel (Some x)) E2) as Rec.
    pose proof (rep_recoloured _ _ _ _ _ _ Rec Hrep) as Hrep2.
    destruct (rep_lookup _ _ _ _ _ r Hrep2) as (n & Hn).
    { inversion Hrep2; subst. left. }
    destruct (finish_run r n s2 Hn) as (s3 & E3).
    pose proof (finish_keeps_root r s2) as Hfin. simpl in Hfin.
    rewrite E3 in Hfin. destruct Hfin as (R3 & Rep3).
    exists (Ok tt), s3. rewrite (bind_step _ _ _ _ _ E2).
    split; [exact E3|]. split; [now left|]. split; [exact R3|].
    split; [exact (rep_repainted _ _ _ _ _ _ Rep3 Hrep2)|].
    transitivity s2; [|exact Rep3].
    destruct Rec as (_ & L & W & H). repeat split; assumption.
  - pose proof (stable_result _ _ _ _ _ (recoloured_recolor fuel (Some x)) E2) as Rec.
    exists (Raise AttributeError), s2.
    split; [now apply bind_stop|]. split; [now right|].
    split; [destruct Rec as (-> & _); exact Hroot|].
    split; [exact (rep_recoloured _ _ _ _ _ _ Rec Hrep)|].
    destruct Rec as (_ & L & W & H). repeat split; assumption.
Qed.

(** The third way [insert] of a number can end. A number equal to the
    value of the root, whose warning cannot be written, makes [insert]
    raise ValueError: the node built for it stays outside the tree, and
    the tree and its count are as before. *)
Lemma duplicate_that_cannot_be_written fuel v s r n :
  root s = Some r -> heap s !! r = Some n ->
  is_numeric v = true -> py_eq v (_data n) = true -> formats v = false ->
  insert (S fuel) v s
  = (Raise ValueError, set_heap (heap s ++ [mkNode RED None None v None]) s).
Proof.
  intros Hr Hn Hnum Heq Hfm.
  assert (is_None v = false) as Hnone by (destruct v; try discriminate; reflexivity).
  rewrite (insert_on_tree _ _ _ _ Hr Hnone). apply bind_stop.
  assert (_insert (S fuel) v s = _insert_numeric (S fuel) (root s) v s) as ->
    by (destruct v; try discriminate; reflexivity).
  unfold _insert_numeric. rewrite Hr, Hnum.
  change (assert true) with (ret tt). rewrite !bind_ret.
  rewrite (bind_step _ _ _ _ _ (BasicNode_init_number v RED s Hnum)).
  simpl _insert_node.
  assert (get_data (List.length (heap s))
            (set_heap (heap s ++ [mkNode RED None None v None]) s)
          = (Ok v, set_heap (heap s ++ [mkNode RED None None v None]) s)) as E1
    by (apply (get_data_Some _ _ (mkNode RED None None v None)), lookup_fresh).
  assert (get_data r (set_heap (heap s ++ [mkNode RED None None v None]) s)
          = (Ok (_data n), set_heap (heap s ++ [mkNode RED None None v None]) s)) as E2
    by (apply get_data_Some; simpl; now apply lookup_app_l_Some).
  rewrite (bind_step _ _ _ _ _ E1), (bind_step _ _ _ _ _ E2), Heq.
  apply bind_stop. unfold warn. now rewrite Hfm.
Qed.

(** The warning of an [int] of 4301 digits cannot be written, that of
    the [int] just below can. *)
Lemma a_long_int_does_not_format :
  formats (VInt (10 ^ int_max_str_digits)) = false /\
  formats (VInt (10 ^ int_max_str_digits - 1)) = true.
Proof.
  assert (0 < 10 ^ int_max_str_digits)%Z as H
    by (apply Z.pow_pos_nonneg; [reflexivity | discriminate]).
  unfold formats. generalize dependent (10 ^ int_max_str_digits)%Z. intros b H.
  split.
  - rewrite Z.abs_eq by lia. apply Z.ltb_irrefl.
  - rewrite Z.abs_eq by lia. apply Z.ltb_lt. lia.
Qed.

(** So a second insertion of such an [int] raises ValueError. *)
Lemma a_long_duplicate_raises_value_error :
  exists s v s',
    grown_from_numbers s /\ orderable v = true /\
    insert 5 v s = (Raise ValueError, s') /\
    root s' = root s /\ _length s' = _length s /\ warned s' = warned s.
Proof.
  pose proof (proj1 a_long_int_does_not_format) as Hfm.
  generalize dependent (10 ^ int_max_str_digits)%Z. intros z Hfm.
  pose (s0 := snd (run (RBT_init 0 None))).
  assert (insert 5 (VInt z) s0
          = (Ok tt, mkState [mkNode BLACK None None (VInt z) None] (Some 0) 1 []))
    as E0 by reflexivity.
  exists (snd (insert 5 (VInt z) s0)), (VInt z). eexists.
  split; [exact (numbers_insert s0 5 (VInt z) numbers_new eq_refl)|].
  split; [reflexivity|].
  rewrite E0. simpl snd.
  split.
  - apply (duplicate_that_cannot_be_written 4 (VInt z) _ 0
             (mkNode BLACK None None (VInt z) None));
      try reflexivity; [|exact Hfm].
    exact (orderable_equals_itself (VInt z) eq_refl).
  - repeat split.
Qed.

(** X14: on a tree grown by inserting numbers other than NaN, [insert]
    of such a number with a budget above the height of the tree ends in
    one of three ways: it returns; it raises the AttributeError of a
    rotation; or, for an [int] of more than 4300 digits only, it raises
    the ValueError of the warning that cannot be written. It raises no
    other exception. *)
Theorem how_insert_of_a_number_can_end fuel v s :
  grown_from_numbers s -> orderable v = true ->
  height (uncoloured (tree_shape s)) < fuel ->
  exists s', insert fuel v s = (Ok tt, s')
             \/ insert fuel v s = (Raise AttributeError, s')
             \/ (insert fuel v s = (Raise ValueError, s') /\ formats v = false).
Proof.
  intros Hg Hv Hf.
  destruct (ordered_grown_from_numbers s Hg) as (_ & Ho).
  destruct (well_formed_grown s (grown_from_numbers_grown s Hg))
    as (t & al & Hrep & Hlen).
  rewrite (rep_tree_shape _ _ _ Hrep) in *.
  pose proof (orderable_is_numeric v Hv) as Hnum.
  assert (is_None v = false) as Hnone by (destruct v; try discriminate; reflexivity).
  assert (isinstance_HouseOfHades v = false) as Hh
    by (destruct v; try discriminate; reflexivity).
  destruct (root s) as [r|] eqn:Hr.
  2:{ rewrite (insert_into_empty _ _ _ Hr), Hnone, Hh. eauto. }
  rewrite (insert_on_tree _ _ _ _ Hr Hnone).
  destruct (_insert fuel v s) as [o1 s1] eqn:E1.
  assert (_insert_node fuel (Some r) (Some (List.length (heap s)))
            (set_heap (heap s ++ [mkNode RED None None v None]) s) = (o1, s1)) as E.
  { assert (_insert_numeric fuel (root s) v s = (o1, s1)) as E
      by (destruct v; try discriminate; exact E1).
    unfold _insert_numeric in E. rewrite Hr, Hnum in E.
    change (assert true) with (ret tt) in E. rewrite !bind_ret in E.
    now rewrite (bind_step _ _ _ _ _ (BasicNode_init_number v RED s Hnum)) in E. }
  pose proof (rep_alloc _ (mkNode RED None None v None) _ _ _ _ Hrep) as Hrep0.
  pose proof (insert_node_orderable fuel
                (set_heap (heap s ++ [mkNode RED None None v None]) s) None r t al _
                (mkNode RED None None v None) o1 s1 Hrep0 Ho
                (lookup_fresh _ _) Hv E) as Hte.
  apply (insert_node_rep fuel _ None r t al _ (mkNode RED None None v None)) in E;
    try reflexivity.
  2:{ exact Hrep0. }
  2:{ simpl. apply lookup_fresh. }
  2:{ exact (rep_fresh _ _ _ _ _ Hrep). }
  simpl in E.
  destruct E as [(_ & _ & Hh')
                |(Hok & R1 & _ & _ & al' & Hrep' & _ & _ & Hx & _)]; [lia|].
  destruct Hok as [(x & ->)|[->|(-> & Hfm)]]; [|contradiction|].
  2:{ exists s1. right. right. split; [now apply bind_stop | exact Hfm]. }
  assert (root s1 = Some r) as Hr1 by (rewrite R1; exact Hr).
  rewrite (bind_step _ _ _ _ _ E1).
  assert (forall y, In y (stored (bst_insert v t)) -> orderable y = true) as Ho'.
  { intros y Hy. apply In_stored_bst_insert in Hy as [->|Hy]; auto. }
  pose proof (height_bst_insert v t) as Hh'.
  destruct (insert_tail_ends fuel r _ al' x s1 Hr1 Hrep' Ho' (Hx x eq_refl) ltac:(lia))
    as (o & s' & E & [->| ->] & _).
  - exists s'. left. exact E.
  - exists s'. right. left. exact E.
Qed.

Lemma how_insert_of_a_number_can_end_witness :
  let s := tree_of 5 [1; 2]%Z in
  grown_from_numbers s /\ orderable (VInt 3) = true /\
  height (uncoloured (tree_shape s)) < 5 /\
  exists s', insert 5 (VInt 3) s = (Ok tt, s')
             \/ insert 5 (VInt 3) s = (Raise AttributeError, s')
             \/ (insert 5 (VInt 3) s = (Raise ValueError, s') /\
                 formats (VInt 3) = false).
Proof.
  intros s.
  assert (grown_from_numbers s) as H1 by apply numbers_built.
  assert (orderable (VInt 3) = true) as H2 by reflexivity.
  assert (height (uncoloured (tree_shape s)) < 5) as H3 by (vm_compute; lia).
  repeat (split; [assumption|]).
  exact (how_insert_of_a_number_can_end 5 (VInt 3) s H1 H2 H3).
Defined.

(** ** The constructor *)

Lemma size_bst_insert v t : size (bst_insert v t) <= S (size t).
Proof.
  induction t as [|l IHl x r IHr]; simpl; [lia|].
  destruct (py_eq v x); [simpl; lia|].
  destruct (py_order Lt v x) as [[|]|]; simpl; lia.
Qed.

(** The loop of the constructor over numbers, on a well-formed tree:
    it inserts a prefix of the elements, each by plain search-tree
    insertion; the whole sequence if it returns, and up to and including
    the element whose insertion raised otherwise. *)
Lemma insert_all_builds fuel items : forall s t al,
  rep (heap s) None (root s) t al ->
  Z.of_nat (List.length al) = _length s ->
  Forall (fun v => is_numeric v = true) items ->
  size t + List.length items < fuel ->
  exists done rest al',
    items = (done ++ rest)%list /\
    rep (heap (snd (insert_all fuel items s))) None
        (root (snd (insert_all fuel items s)))
        (fold_left (fun t v => bst_insert v t) done t) al' /\
    Z.of_nat (List.length al') = _length (snd (insert_all fuel items s)) /\
    (fst (insert_all fuel items s) = Ok tt -> rest = []) /\
    (fst (insert_all fuel items s) <> Ok tt -> done <> []).
Proof.
  induction items as [|v items IH]; intros s t al Hrep Hlen Hnum Hf.
  { exists [], [], al. simpl. repeat split; auto. }
  apply Forall_cons in Hnum as (Hv & Hnum). simpl in Hf.
  destruct (insert_rep fuel v s t al Hrep Hlen (numeric_is_no_node v Hv))
    as (t' & al' & Hrep' & Hlen' & _ & _ & Ht).
  pose proof (height_le_size t) as Hh.
  rewrite (Ht Hv ltac:(lia)) in Hrep'. clear Ht t'.
  simpl. unfold bind.
  destruct (insert fuel v s) as [[[]| | |] s1] eqn:E; simpl in Hrep', Hlen'.
  - pose proof (size_bst_insert v t) as Hs.
    destruct (IH s1 _ al' Hrep' Hlen' Hnum ltac:(lia))
      as (done & rest & al'' & -> & Hrep'' & Hlen'' & Hok & Hno).
    exists (v :: done), rest, al''. simpl. repeat split; auto; discriminate.
  - exists [v], items, al'. simpl. repeat split; auto; try discriminate.
  - exists [v], items, al'. simpl. repeat split; auto; try discriminate.
  - exists [v], items, al'. simpl. repeat split; auto; try discriminate.
Qed.



(** X15: the uncle is the sibling of the parent. For a node whose
    [get_parent] returns a node, [get_uncle] ends as [get_sibling] of
    that parent does, result, exception and state alike; for a node
    without a parent both return [None]. *)
Theorem uncle_is_sibling_of_parent s c :
  (forall p, get_parent c s = (Ok (Some p), s) ->
             get_uncle c s = get_sibling p s) /\
  (get_parent c s = (Ok None, s) ->
   get_uncle c s = (Ok None, s) /\ get_sibling c s = (Ok None, s)).
Proof.
  split.
  - intros p H. unfold get_uncle. rewrite (bind_step _ _ _ _ _ H). reflexivity.
  - intros H. unfold get_uncle, get_sibling. now rewrite !(bind_step _ _ _ _ _ H).
Qed.

Lemma uncle_is_sibling_of_parent_witness :
  let s := tree_of 5 [10; 5; 15; 1]%Z in
  get_parent 3 s = (Ok (Some 1), s) /\
  get_uncle 3 s = get_sibling 1 s /\
  get_uncle 3 s = (Ok (Some 2), s).
Proof.
  intros s.
  assert (get_parent 3 s = (Ok (Some 1), s)) as H by (vm_compute; reflexivity).
  split; [exact H|]. split.
  - exact (proj1 (uncle_is_sibling_of_parent s 3) 1 H).
  - vm_compute. reflexivity.
Defined.

(** ** The shared check and nodes built beforehand *)

Lemma repainted_attached s s' new : repainted s s' -> attached new s -> attached new s'.
Proof.
  intros R (p & np & nn & Hp & Hc & Hn & Hpar).
  destruct (repainted_lookup _ _ _ _ R Hp) as (np' & Hp' & Lp & _).
  destruct (repainted_lookup _ _ _ _ R Hn) as (nn' & Hn' & Ln & _).
  exists p, np', nn'. unfold links in *.
  injection Lp as -> -> _. injection Ln as _ _ ->. auto.
Qed.

(** Every node a well-formed tree lists is reached from its top. *)
Lemma rep_in_tree s : forall t par c al,
  rep (heap s) par (Some c) t al -> in_tree s c ->
  forall a, a ∈ al -> in_tree s a.
Proof.
  induction t as [|l IHl x r IHr]; intros par c al Hrep Hc a Ha;
    inversion Hrep as [|par' c' n l' r' al_l al_r Hn Hp Hl Hr Hd]; subst.
  apply elem_of_cons in Ha as [->|Ha]; [exact Hc|].
  apply elem_of_app in Ha as [Ha|Ha].
  - destruct (_left n) as [cl|] eqn:El.
    + exact (IHl _ _ _ Hl (in_tree_left s c n cl Hc Hn El) a Ha).
    + inversion Hl; subst. now apply elem_of_nil in Ha.
  - destruct (_right n) as [cr|] eqn:Er.
    + exact (IHr _ _ _ Hr (in_tree_right s c n cr Hc Hn Er) a Ha).
    + inversion Hr; subst. now apply elem_of_nil in Ha.
Qed.

(** In a tree of numbers other than NaN, the descent with a node from
    outside the tree that holds such a number, different from every
    value of the tree, returns that node and warns nothing, given a
    budget not below the height. *)
Lemma insert_node_links fuel : forall s par start t al new nn,
  rep (heap s) par (Some start) t al ->
  heap s !! new = Some nn -> new ∉ al ->
  orderable (_data nn) = true ->
  (forall y, In y (stored t) -> orderable y = true /\ py_eq (_data nn) y = false) ->
  height t <= fuel ->
  exists s1,
    _insert_node fuel (Some start) (Some new) s = (Ok (Some new), s1) /\
    warned s1 = warned s.
Proof.
  induction fuel as [|fuel IH];
    intros s par start t al new nn Hrep Hnn Hnew Hv Ho Hf;
    inversion Hrep as [|par' a n l r al_l al_r Hn Hp Hl Hr Hd]; subst;
    simpl in Hf; [lia|].
  destruct (Ho (_data n)) as (Hon & Hne);
    [simpl; apply in_app_iff; right; now left|].
  assert (start <> new) as Hsn by (intros ->; apply Hnew; left).
  simpl.
  rewrite (bind_step _ _ _ _ _ (get_data_Some _ _ _ Hnn)).
  rewrite (bind_step _ _ _ _ _ (get_data_Some _ _ _ Hn)).
  rewrite Hne.
  rewrite (bind_step _ _ _ _ _ (get_data_Some _ _ _ Hn)).
  destruct (compare_orderable Lt (_data nn) (_data n) s Hv Hon) as (b & Eb).
  rewrite (bind_step _ _ _ _ _ Eb).
  destruct b.
  - rewrite (bind_step _ _ _ _ _ (get_left_Some _ _ _ Hn)).
    destruct (_left n) as [c|] eqn:Hc.
    + apply (IH _ _ _ _ _ _ _ Hl Hnn); [|exact Hv| |lia].
      * intros Hx. apply Hnew. right. apply elem_of_app. now left.
      * intros y Hy. apply Ho. simpl. apply in_app_iff. now left.
    + assert (set_left start (Some new) s =
                (Ok tt, set_heap (<[new := with_parent (Some start) nn]>
                                    (<[start := with_left (Some new) n]> (heap s))) s))
        as E.
      { unfold set_left. rewrite (bind_step _ _ _ _ _ (modify_Some _ _ _ _ Hn)).
        erewrite modify_Some
          by (simpl; rewrite list_lookup_insert_ne by exact Hsn; exact Hnn).
        reflexivity. }
      rewrite (bind_step _ _ _ _ _ E). eexists. split; reflexivity.
  - rewrite (bind_step _ _ _ _ _ (get_right_Some _ _ _ Hn)).
    destruct (_right n) as [c|] eqn:Hc.
    + apply (IH _ _ _ _ _ _ _ Hr Hnn); [|exact Hv| |lia].
      * intros Hx. apply Hnew. right. apply elem_of_app. now right.
      * intros y Hy. apply Ho. simpl. apply in_app_iff. right. now right.
    + assert (set_right start (Some new) s =
                (Ok tt, set_heap (<[new := with_parent (Some start) nn]>
                                    (<[start := with_right (Some new) n]> (heap s))) s))
        as E.
      { unfold set_right. rewrite (bind_step _ _ _ _ _ (modify_Some _ _ _ _ Hn)).
        erewrite modify_Some
          by (simpl; rewrite list_lookup_insert_ne by exact Hsn; exact Hnn).
        reflexivity. }
      rewrite (bind_step _ _ _ _ _ E). eexists. split; reflexivity.
Qed.

(** When [_insert_node] returns, it has either hung the node it was
    given under a node and counted it, or found an equal value, warned,
    and changed nothing else. *)
Lemma insert_node_links_or_warns fuel start a s x s1 :
  _insert_node fuel start (Some a) s = (Ok x, s1) ->
  (x = Some a /\ attached a s1 /\ _length s1 = (_length s + 1)%Z /\
   warned s1 = warned s)
  \/ (exists w, warned s1 = (warned s ++ [w])%list /\
                heap s1 = heap s /\ _length s1 = _length s).
Proof.
  intros H. pose proof H as H'.
  apply insert_node_cases in H'
    as [(-> & Hn)|[(x' & w & Ex & ->)|(W & R & [(L & Hn)|(L & Eo)])]].
  - now destruct (Hn x).
  - right. exists w. repeat split.
  - now destruct (Hn x).
  - left. destruct (insert_node_attaches _ _ _ _ _ _ H W) as (-> & L' & _ & A).
    repeat split; assumption.
Qed.

(** [insert] of a node built beforehand, on a non-empty tree of numbers
    other than NaN: when the node is outside the tree, has no children
    and holds such a number, different from every value of the tree,
    and the budget is above the height, [insert] returns or raises the
    AttributeError of a rotation, and either way the node has become a
    node of the tree, where plain search-tree insertion puts its value,
    and is counted. *)
Lemma insert_links_a_built_node fuel s r t al a na :
  root s = Some r -> rep (heap s) None (Some r) t al ->
  heap s !! a = Some na -> a ∉ al -> _left na = None -> _right na = None ->
  orderable (_data na) = true ->
  (forall y, In y (stored t) -> orderable y = true /\ py_eq (_data na) y = false) ->
  height t < fuel ->
  exists o s',
    insert fuel (VNode a) s = (o, s') /\
    (o = Ok tt \/ o = Raise AttributeError) /\
    in_tree s' a /\ attached a s' /\
    uncoloured (tree_shape s') = bst_insert (_data na) t /\
    _length s' = (_length s + 1)%Z /\ warned s' = warned s.
Proof.
  intros Hr Hrep Hna Hout Hl Hrt Hv Ho Hf.
  destruct (insert_node_links fuel s None r t al a na Hrep Hna Hout Hv Ho ltac:(lia))
    as (s1 & E & W).
  assert (_insert fuel (VNode a) s = (Ok (Some a), s1)) as E1.
  { unfold _insert. simpl. change (assert true) with (ret tt). rewrite bind_ret.
    unfold get_root, bind at 1. simpl. rewrite Hr. exact E. }
  destruct (insert_node_attaches _ _ _ _ _ _ E W) as (_ & L1 & R1 & A1).
  destruct (insert_node_rep fuel s None r t al a na _ s1 Hrep Hna Hl Hrt Hout E)
    as [(? & _)|(_ & _ & _ & _ & al' & Hrep' & _ & _ & Hx & _)]; [discriminate|].
  assert (root s1 = Some r) as Hr1 by (rewrite R1; exact Hr).
  assert (forall y, In y (stored (bst_insert (_data na) t)) -> orderable y = true)
    as Ho'.
  { intros y Hy. apply In_stored_bst_insert in Hy as [->|Hy]; [exact Hv|].
    exact (proj1 (Ho y Hy)). }
  pose proof (height_bst_insert (_data na) t) as Hh.
  destruct (insert_tail_ends fuel r _ al' a s1 Hr1 Hrep' Ho' (Hx a eq_refl) ltac:(lia))
    as (o & s' & Et & Hout' & Hr' & Hrep'' & Rep).
  exists o, s'.
  split.
  { rewrite (insert_on_tree fuel (VNode a) s r Hr eq_refl), (bind_step _ _ _ _ _ E1).
    exact Et. }
  split; [exact Hout'|].
  split.
  { apply (rep_in_tree s' _ None r al' Hrep''); [now apply in_tree_root|].
    exact (Hx a eq_refl). }
  split; [exact (repainted_attached _ _ _ Rep A1)|].
  split.
  { apply (rep_tree_shape s' _ al'). rewrite Hr'. exact Hrep''. }
  destruct Rep as (L & W' & _). split; congruence.
Qed.


